(** * LX200 WiFi bridge: command framing, dispatch, handshake and reply reading

    A shallow embedding of [src/LX200WifiBridge.cpp].  The bridge accepts one
    TCP client, cuts its byte stream into [:]...[#] commands, forwards each
    command over a serial link to the mount controller (the Teensy) after a
    one-byte handshake, reads the reply and relays it, with a few
    client-specific corrections.

    Modelling decisions, all of them local to the section they appear in:
    - an Arduino [String] is its sequence of bytes ([Str]);
    - [millis()] is an unbounded clock observed modulo [2^32];
    - the serial link is a script of what happens during each poll of a
      busy-wait loop (did the millisecond counter advance, which bytes came in);
    - a client is the sequence of bytes it sends; accepting it, its idle
      timeout and its disconnection are not modelled;
    - memory is unbounded and the debug console is not modelled. *)

From Stdlib Require Import List Bool Arith ZArith Lia Ascii String.
Import ListNotations.

Local Open Scope string_scope.
Local Open Scope list_scope.

(* ================================================================== *)
(** * Arduino [String] values *)

Module WString.

(** A [String] holds bytes; the literal ["abc"] is the bytes [a], [b], [c]. *)
Definition Str := list ascii.

Definition lit (s : string) : Str := list_ascii_of_string s.

(** [a == b] on two strings, and on a string and a literal. *)
Fixpoint equals (a b : Str) : bool :=
  match a, b with
  | [], [] => true
  | x :: a', y :: b' => Ascii.eqb x y && equals a' b'
  | _, _ => false
  end.

(** [s.length()]. *)
Definition length (s : Str) : Z := Z.of_nat (List.length s).

(** [s.indexOf(c)]: position of the first [c], or [-1]. *)
Fixpoint indexOf (c : ascii) (s : Str) : Z :=
  match s with
  | [] => -1
  | x :: s' =>
      if Ascii.eqb x c then 0
      else let i := indexOf c s' in if i <? 0 then -1 else i + 1
  end%Z.

(** An [int] passed where [unsigned int] is expected. *)
Definition to_unsigned (i : Z) : nat := Z.to_nat (i mod 2 ^ 32).

(** [s.substring(left, right)]: the bytes from [left] up to, not including,
    [right]; the bounds are swapped when out of order and [right] is clipped
    to the length. *)
Definition substring2 (s : Str) (left right : Z) : Str :=
  let l := to_unsigned left in
  let r := to_unsigned right in
  let (l, r) := if (r <? l)%nat then (r, l) else (l, r) in
  if (List.length s <=? l)%nat then []
  else
    let r := if (List.length s <? r)%nat then List.length s else r in
    firstn (r - l) (skipn l s).

(** [s.substring(left)] runs to the end of the string. *)
Definition substring1 (s : Str) (left : Z) : Str :=
  substring2 s left (length s).

(** The bytes a C string routine sees of [s]: those before the first NUL. *)
Fixpoint until_nul (s : Str) : Str :=
  match s with
  | [] => []
  | x :: s' => if Ascii.eqb x "000" then [] else x :: until_nul s'
  end.

(** [s.startsWith(p)]. *)
Fixpoint startsWith (s p : Str) {struct p} : bool :=
  match p, s with
  | [], _ => true
  | y :: p', x :: s' => Ascii.eqb x y && startsWith s' p'
  | _ :: _, [] => false
  end.

End WString.

Import WString.
Coercion lit : string >-> Str.
Infix "==" := equals (at level 70, no associativity).

(* ================================================================== *)
(** * The quirk tables *)

(** Commands that get no reply on the client socket. *)
Definition isNoResponseCommand (cmd : Str) : bool :=
     (cmd == ":Me#")    (* start moving East *)
  || (cmd == ":Mn#")    (* start moving North *)
  || (cmd == ":Ms#")    (* start moving South *)
  || (cmd == ":Mw#")    (* start moving West *)
  || (cmd == ":Qe#")    (* abort slew East *)
  || (cmd == ":Qn#")    (* abort slew North *)
  || (cmd == ":Qs#")    (* abort slew South *)
  || (cmd == ":Qw#")    (* abort slew West *)
  || (cmd == ":RC#")    (* slew rate: centering *)
  || (cmd == ":RF#")    (* slew rate: fast *)
  || (cmd == ":RG#")    (* slew rate: guiding *)
  || (cmd == ":RM#")    (* slew rate: find *)
  || (cmd == ":RS#")    (* slew rate: max *)
  || (cmd == ":W1#")    (* select site 1 *)
  || (cmd == ":CS#").   (* synchronise with current RA/DEC *)

(** Commands answered by the bridge itself; the empty string means "none". *)
Definition checkForAppSpecificCmds (cmd : Str) : Str :=
  if cmd == ":GVP#" then "OnStepX.DDScopeX#"   (* product name *)
  else if cmd == ":GVN#" then "2.0#"           (* firmware version *)
  else if cmd == ":GVD#" then "May 2025#"      (* firmware date *)
  else if cmd == ":GVT#" then "08:02:00#"      (* firmware time *)
  else "".

(* ================================================================== *)
(** * The world outside the program *)

(** One poll interval of a busy-wait loop: whether [millis()] moved on by one
    during it, and the bytes the Teensy delivered during it. *)
Definition Slot : Type := bool * list ascii.

Record World := mkWorld {
  now     : Z;             (* milliseconds since boot *)
  uart_rx : list ascii;    (* SERIAL_TEENSY: received and not yet read *)
  wire    : list Slot;     (* SERIAL_TEENSY: what the coming poll intervals
                              bring; after the script, time passes and
                              nothing arrives *)
  uart_tx : list ascii;    (* SERIAL_TEENSY: everything written so far *)
  sock_tx : list ascii;    (* client socket: everything written so far *)
}.

Definition set_rx (rx : list ascii) (w : World) : World :=
  mkWorld (now w) rx (wire w) (uart_tx w) (sock_tx w).

(** [millis()] is an [unsigned long]. *)
Definition millis (w : World) : Z := (now w mod 2 ^ 32)%Z.

(** [a - b] on [unsigned long]. *)
Definition sub32 (a b : Z) : Z := ((a - b) mod 2 ^ 32)%Z.

(** [SERIAL_TEENSY.available()] used as a condition. *)
Definition available (w : World) : bool :=
  match uart_rx w with [] => false | _ :: _ => true end.

(** [SERIAL_TEENSY.write] / [print], followed by [flush]. *)
Definition serial_write (bs : Str) (w : World) : World :=
  mkWorld (now w) (uart_rx w) (wire w) (uart_tx w ++ bs) (sock_tx w).

(** [client.write] / [print], followed by [flush]. *)
Definition client_write (bs : Str) (w : World) : World :=
  mkWorld (now w) (uart_rx w) (wire w) (uart_tx w) (sock_tx w ++ bs).

(** The back edge of a busy-wait loop: one poll interval goes by. *)
Definition poll (w : World) : World :=
  match wire w with
  | [] => mkWorld (now w + 1) (uart_rx w) [] (uart_tx w) (sock_tx w)
  | (tick, bs) :: rest =>
      mkWorld (now w + (if tick then 1 else 0)) (uart_rx w ++ bs) rest
              (uart_tx w) (sock_tx w)
  end.

(** The intervals that go by until the clock has moved on [n] times, and the
    bytes they bring. *)
Fixpoint sleep (l : list Slot) (n : nat) : list ascii * list Slot :=
  match n, l with
  | O, _ => ([], l)
  | S _, [] => ([], [])
  | S n', (tick, bs) :: l' =>
      let (got, rest) := sleep l' (if tick then n' else n) in (bs ++ got, rest)
  end.

(** The bytes that arrive during those intervals. *)
Definition heard (l : list Slot) (n : nat) : list ascii := fst (sleep l n).

(** [delay(n)]. *)
Definition delay (n : nat) (w : World) : World :=
  let (got, rest) := sleep (wire w) n in
  mkWorld (now w + Z.of_nat n) (uart_rx w ++ got) rest (uart_tx w) (sock_tx w).

(** [while (SERIAL_TEENSY.available()) SERIAL_TEENSY.read();] *)
Definition drain (w : World) : World := set_rx [] w.

(* ================================================================== *)
(** * Programs: state passing over [World], failing only for lack of fuel *)

Definition Run (A : Type) : Type := World -> option (A * World).

Definition ret {A} (a : A) : Run A := fun w => Some (a, w).

Definition bind {A B} (m : Run A) (k : A -> Run B) : Run B :=
  fun w => match m w with Some (a, w') => k a w' | None => None end.

Definition act (f : World -> World) : Run unit := fun w => Some (tt, f w).

Definition ask {A} (f : World -> A) : Run A := fun w => Some (f w, w).

Notation "x <- m ;; k" := (bind m (fun x => k))
  (at level 100, m at next level, right associativity).
Notation "m ;;; k" := (bind m (fun _ => k))
  (at level 100, right associativity).

(** ** [while ((millis() - start) < timeout) { body }] *)

(** What one pass through a loop body decides. *)
Inductive Flow (S R : Type) : Type :=
| Next (s : S) (w : World)      (* fall through to the loop test *)
| Leave (r : R) (w : World).    (* [break] or [return] *)
Arguments Next {S R} s w.
Arguments Leave {S R} r w.

(** How the loop ended. *)
Inductive Exit (S R : Type) : Type :=
| Expired (s : S)               (* the loop test failed *)
| Left (r : R).                 (* the body left *)
Arguments Expired {S R} s.
Arguments Left {S R} r.

Fixpoint while_millis_fuel {S R} (fuel : nat) (timeout start : Z)
    (body : S -> World -> Flow S R) (s : S) (w : World)
  : option (Exit S R * World) :=
  match fuel with
  | O => None
  | Datatypes.S fuel' =>
      if (sub32 (millis w) start <? timeout)%Z then
        match body s w with
        | Leave r w' => Some (Left r, w')
        | Next s' w' => while_millis_fuel fuel' timeout start body s' (poll w')
        end
      else Some (Expired s, w)
  end.

(** Every pass takes one poll interval; once the script of the wire is used
    up each interval is a millisecond, so script length plus timeout is enough
    fuel (lemma [while_millis_total]). *)
Definition while_millis {S R} (timeout start : Z)
    (body : S -> World -> Flow S R) (s : S) : Run (Exit S R) :=
  fun w =>
    while_millis_fuel (Datatypes.S (List.length (wire w) + Z.to_nat timeout))
                      timeout start body s w.

(* ================================================================== *)
(** * Handshake: send 'L', wait for 'K' *)

Definition TEENSY_ACK_TIMEOUT : Z := 500.

(** [if (available() && read() == 'K') { delay(3); drain; break; }]:
    a byte that is not 'K' is read all the same, and lost. *)
Definition ack_body (_ : unit) (w : World) : Flow unit unit :=
  match uart_rx w with
  | [] => Next tt w
  | b :: rest =>
      let w := set_rx rest w in
      if Ascii.eqb b "K" then Leave tt (drain (delay 3 w)) else Next tt w
  end.

Definition handshakeTeensy : Run unit :=
  act (serial_write "L") ;;;
  ackStart <- ask millis ;;
  while_millis TEENSY_ACK_TIMEOUT ackStart ack_body tt ;;;
  ret tt.

(* ================================================================== *)
(** * Reading the reply *)

(** [if (SERIAL_TEENSY.available()) break;] *)
Definition first_byte_body (_ : unit) (w : World) : Flow unit unit :=
  if available w then Leave tt w else Next tt w.

(** Stray 'K', line feed, carriage return. *)
Definition is_junk (rc : ascii) : bool :=
  Ascii.eqb rc "K" || Ascii.eqb rc "010" || Ascii.eqb rc "013".

(** The inner [while (SERIAL_TEENSY.available())] loop over the receive
    buffer [rx]: the reply so far, the bytes left unread, and whether the loop
    returned on '#'. *)
Fixpoint read_available (tResponse : Str) (rx : list ascii)
  : Str * list ascii * bool :=
  match rx with
  | [] => (tResponse, [], false)
  | rc :: rx' =>
      if is_junk rc then read_available tResponse rx'
      else
        let tResponse := tResponse ++ [rc] in
        if Ascii.eqb rc "#" then (tResponse, rx', true)
        else read_available tResponse rx'
  end.

Definition reply_body (tResponse : Str) (w : World) : Flow Str Str :=
  match read_available tResponse (uart_rx w) with
  | (tResponse, rx, true) => Leave tResponse (set_rx rx w)
  | (tResponse, rx, false) => Next tResponse (set_rx rx w)
  end.

Definition readTeensyResponse : Run Str :=
  let tResponse : Str := "" in
  startWait <- ask millis ;;
  while_millis 2300 startWait first_byte_body tt ;;;
  ready <- ask available ;;
  if negb ready then ret (lit "")
  else
    readStart <- ask millis ;;
    e <- while_millis 350 readStart reply_body tResponse ;;
    match e with
    | Left tResponse => ret tResponse
    | Expired tResponse => ret tResponse      (* might be partial *)
    end.

(* ================================================================== *)
(** * Processing one command *)

(** The copy of the command that goes to the Teensy. *)
Definition truncCmd (cmd : Str) : Str :=
  if cmd == ":SG+06.0#" then
    let dotIndex := indexOf "." cmd in
    let hashIndex := indexOf "#" cmd in
    if negb (dotIndex =? -1)%Z && negb (hashIndex =? -1)%Z
       && (dotIndex <? hashIndex)%Z
    then substring2 cmd 0 dotIndex ++ substring1 cmd hashIndex
    else cmd
  else cmd.

Definition processLX200Command (cmd : Str) : Run Str :=
  let localResp := checkForAppSpecificCmds cmd in
  if negb (WString.length localResp =? 0)%Z then ret localResp
  else
    handshakeTeensy ;;;
    act (serial_write (truncCmd cmd)) ;;;
    readTeensyResponse.

(* ================================================================== *)
(** * Serving the client *)

(** The two locals of [handleLX200Client] that live across bytes. *)
Record Conn := mkConn {
  receivingCmd : bool;
  lx200Cmd     : Str;
}.

(** What a byte from the client calls for. *)
Inductive Event : Type :=
| Probe                 (* 0x06: answer 'A' *)
| Quiet                 (* nothing to do *)
| Command (cmd : Str).  (* a command is complete *)

(** The framing part of the body of [while (client.available())]. *)
Definition frameByte (c : ascii) (k : Conn) : Conn * Event :=
  if Ascii.eqb c "006" then (k, Probe)
  else if negb (receivingCmd k) && Ascii.eqb c ":" then (mkConn true ":", Quiet)
  else
    let cmd := lx200Cmd k ++ [c] in
    if Ascii.eqb c "#" && receivingCmd k then (mkConn false cmd, Command cmd)
    else (mkConn (receivingCmd k) cmd, Quiet).

(** The body of [if (c == '#' && receivingCmd)] once the flag is reset: get
    the reply and relay it.  The [break] for a no-response command leaves the
    inner loop only; the outer loop comes back to it with both locals as they
    are, so it shows here as sending nothing. *)
Definition handleLX200Command (lx200Cmd : Str) : Run unit :=
  response <- processLX200Command lx200Cmd ;;
  let response :=
    if (response == "1#") || (response == "0#")
    then substring2 response 0 1 else response in
  if isNoResponseCommand lx200Cmd then ret tt
  else if (0 <? WString.length response)%Z then
    let response :=
      if startsWith lx200Cmd ":SC"
      then lit "1Updating Planetary Data#          #" else response in
    let response := if lx200Cmd == ":Q#" then lit "1" else response in
    act (client_write response)
  else ret tt.

Definition handleLX200Byte (c : ascii) (k : Conn) : Run Conn :=
  let (k', ev) := frameByte c k in
  match ev with
  | Probe => act (client_write "A") ;;; ret k'
  | Quiet => ret k'
  | Command cmd => handleLX200Command cmd ;;; ret k'
  end.

(** The bytes a client sends during one connection, in order. *)
Fixpoint serve (bytes : list ascii) (k : Conn) : Run Conn :=
  match bytes with
  | [] => ret k
  | c :: rest => k' <- handleLX200Byte c k ;; serve rest k'
  end.

Definition handleLX200Client (bytes : list ascii) : Run Conn :=
  serve bytes (mkConn false "").

(** The commands the framer completes on a byte sequence. *)
Fixpoint framed (bytes : list ascii) (k : Conn) : list Str :=
  match bytes with
  | [] => []
  | c :: rest =>
      let (k', ev) := frameByte c k in
      match ev with
      | Command cmd => cmd :: framed rest k'
      | _ => framed rest k'
      end
  end.

(* ================================================================== *)
(** * Vocabulary of the statements *)

(** Nothing was written to either side between [w] and [w']. *)
Definition logs_kept (w w' : World) : Prop :=
  uart_tx w' = uart_tx w /\ sock_tx w' = sock_tx w.

(** No '#', or exactly one and at the very end. *)
Definition hash_ends (r : Str) : Prop :=
  exists body, ~ In "#"%char body /\ (r = body \/ r = body ++ ["#"%char]).

(** A command as the framer hands it over: ':', a payload without '#', '#'. *)
Definition well_framed (cmd : Str) : Prop :=
  exists payload, cmd = ":"%char :: payload ++ ["#"%char]
                  /\ ~ In "#"%char payload.

(** A command the bridge answers itself never reaches the serial link. *)
Definition answered_locally (cmd : Str) : bool :=
  negb (WString.length (checkForAppSpecificCmds cmd) =? 0)%Z.

(** What a command puts on the serial link. *)
Definition forwarded (cmd : Str) : Str :=
  if answered_locally cmd then lit "" else lit "L" ++ truncCmd cmd.

(** The commands of the local-answer table. *)
Definition local_answer_set : list Str :=
  map lit [":GVP#"; ":GVN#"; ":GVD#"; ":GVT#"].

(** The no-response set, as the specification lists it. *)
Definition no_response_set : list Str :=
  map lit [":Me#"; ":Mn#"; ":Ms#"; ":Mw#"; ":Qe#"; ":Qn#"; ":Qs#"; ":Qw#";
           ":RC#"; ":RF#"; ":RG#"; ":RM#"; ":RS#"; ":W1#"; ":CS#"].

Definition planetary_data : Str := "1Updating Planetary Data#          #".

Definition is_probe (c : ascii) : bool := Ascii.eqb c "006".

(** By how much the clock moves during the next poll interval. *)
Definition ticked (w : World) : Z :=
  match wire w with
  | [] => 1
  | (tick, _) :: _ => if tick then 1 else 0
  end.

(** Two worlds with the serial link in the same condition; clocks and what
    was written so far may differ. *)
Definition same_link (w v : World) : Prop :=
  uart_rx w = uart_rx v /\ wire w = wire v.

(** A loop body that carries on has let no time go by. *)
Definition instant {S R} (body : S -> World -> Flow S R) : Prop :=
  forall s w s' w', body s w = Next s' w' ->
    now w' = now w /\ wire w' = wire w.

(** As long as the receive buffer holds only bytes that are [ok], the body
    carries on, touching nothing but that buffer. *)
Definition passes_over {S R} (body : S -> World -> Flow S R)
    (ok : ascii -> Prop) : Prop :=
  forall s w, Forall ok (uart_rx w) ->
    exists s' rx', body s w = Next s' (set_rx rx' w) /\ Forall ok rx'.

(** The body looks at the serial link only. *)
Definition link_only {S R} (body : S -> World -> Flow S R) : Prop :=
  forall s w v, same_link w v ->
    match body s w, body s v with
    | Next s1 w1, Next s2 v1 =>
        s1 = s2 /\ same_link w1 v1 /\ now w1 = now w /\ now v1 = now v
    | Leave r1 w1, Leave r2 v1 => r1 = r2 /\ same_link w1 v1
    | _, _ => False
    end.

(** ** Two serial links to try things on *)

(** The Teensy acknowledges at once and, once the handshake has settled,
    sends [reply]. *)
Definition teensy_answers (reply : Str) : World :=
  mkWorld 0 []
    [(false, lit "K"); (true, []); (true, []); (true, []); (false, reply)]
    [] [].

(** The Teensy never says anything; the clock is close to wrapping round. *)
Definition teensy_silent : World := mkWorld 4294967000 [] [] [] [].

(* ================================================================== *)
(** * The rest of the sketch *)

(** ** More of the Arduino [String] *)

(** [isspace] of the C locale. *)
Definition isspace (c : ascii) : bool :=
  Ascii.eqb c " " || ((9 <=? nat_of_ascii c)%nat && (nat_of_ascii c <=? 13)%nat).

(** [isprint] of the C locale. *)
Definition isprint (c : ascii) : bool :=
  (32 <=? nat_of_ascii c)%nat && (nat_of_ascii c <=? 126)%nat.

(** [s.endsWith(p)]. *)
Definition endsWith (s p : Str) : bool :=
  if (List.length s <? List.length p)%nat then false
  else skipn (List.length s - List.length p) s == p.

(** [s.remove(index)]: everything from [index] on goes, when there is
    anything there. *)
Definition remove (s : Str) (index : Z) : Str :=
  let i := to_unsigned index in
  if (List.length s <=? i)%nat then s else firstn i s.

(** The first loop of [trim]: skip the white space at the front. *)
Fixpoint skip_space (s : Str) : Str :=
  match s with
  | [] => []
  | x :: s' => if isspace x then skip_space s' else s
  end.

(** [s.trim()]: white space goes from the front, then from the back. *)
Definition trim (s : Str) : Str := rev (skip_space (rev (skip_space s))).

(** ** Labels for the byte trace *)

(** [getAsciiLabel]: the text shown for a byte (the buffer it is returned in
    is not modelled, only its content at the return). *)
Definition getAsciiLabel (c : ascii) : Str :=
  if Ascii.eqb c "013" then "\r"
  else if Ascii.eqb c "010" then "\n"
  else if Ascii.eqb c "009" then "\t"
  else if isprint c then [c]
  else ".".

(** ** The idle test of the connection loop *)

(** [millis() - start > 10000], with [start] the time of the last byte. *)
Definition client_timed_out (start : Z) (w : World) : bool :=
  (10000 <? sub32 (millis w) start)%Z.

(** ** The display *)

Definition IPAddress : Type := Z * Z * Z * Z.

(** What the sketch asks of the display driver, in order. *)
Inductive DisplayOp : Type :=
| ClearDisplay
| DrawBitmap (x y width height : Z)
| SetTextSize (n : Z)
| SetCursor (x y : Z)
| Print (text : Str)
| PrintIP (ip : IPAddress)
| Display.

(** Conversion to [int16_t]. *)
Definition int16 (z : Z) : Z := ((z + 2 ^ 15) mod 2 ^ 16 - 2 ^ 15)%Z.

Definition WIFI_WIDTH : Z := 16.
Definition WIFI_HEIGHT : Z := 16.

(** [printCentered].  [text] is a [const char *]: [strlen] and [print] take
    its bytes up to the first NUL.  [setCursor] takes two [int16_t], so the
    [int y] is converted as [x] is. *)
Definition printCentered (text : Str) (y : Z) : list DisplayOp :=
  let textLen := int16 (WString.length (until_nul text)) in
  let textWidth := int16 (textLen * 6) in     (* 6 pixels per character *)
  let x := int16 (Z.quot (128 - textWidth) 2) in
  [SetCursor x (int16 y); Print (until_nul text)].

Definition updateOledDisplay (lxStaIpMsg lxApIpMsg : IPAddress)
    (wdStaIpMsg : Str) (wdApIpMsg : IPAddress) : list DisplayOp :=
  [ClearDisplay; DrawBitmap 0 0 WIFI_WIDTH WIFI_HEIGHT; SetTextSize 1]
  ++ printCentered "LX200 and" 0
  ++ printCentered " WiFi Display IP's" 8
  ++ [SetCursor 0 20; Print "LX-STA:"; SetCursor 40 20; PrintIP lxStaIpMsg;
      SetCursor 0 32; Print "LX-AP :"; SetCursor 40 32; PrintIP lxApIpMsg;
      SetCursor 0 44; Print "WD-STA:"; SetCursor 40 44; Print wdStaIpMsg;
      SetCursor 0 56; Print "WD-AP :"; SetCursor 40 56; PrintIP wdApIpMsg;
      Display].

(** ** The main loop *)

Definition LX200_AP_IP_ADDR : IPAddress := (192, 168, 4, 1)%Z.
Definition WIFI_DISPLAY_AP_IP_ADDR : IPAddress := (192, 168, 4, 2)%Z.

(** The globals of [loop], and what went to the display so far. *)
Record Sketch := mkSketch {
  lastWifiIpCheck : Z;
  wifiIpReceived  : bool;
  oled            : list DisplayOp;
}.

(** The second part of [loop]: ask the Teensy, every 5 s until it answers,
    for the address of the WiFi display and show it.  [localIP] is what
    [WiFi.localIP()] returns. *)
Definition checkWifiDisplayIp (localIP : IPAddress) (k : Sketch) : Run Sketch :=
  t <- ask millis ;;
  if negb (wifiIpReceived k) && (5000 <=? sub32 t (lastWifiIpCheck k))%Z then
    lastWifiIpCheck' <- ask millis ;;
    wdStaIpMsg <- processLX200Command ":GI#" ;;
    if (1 <? WString.length wdStaIpMsg)%Z && endsWith wdStaIpMsg "#" then
      let wdStaIpMsg := remove wdStaIpMsg (WString.length wdStaIpMsg - 1) in
      let wdStaIpMsg := trim wdStaIpMsg in
      ret (mkSketch lastWifiIpCheck' true
             (oled k ++ updateOledDisplay localIP LX200_AP_IP_ADDR wdStaIpMsg
                          WIFI_DISPLAY_AP_IP_ADDR))
    else ret (mkSketch lastWifiIpCheck' (wifiIpReceived k) (oled k))
  else ret k.

(** One pass of [loop]: serve the client that is there, if any, with the
    bytes it sends; see to the display; restart when the reset line is low
    ([true] in the result). *)
Definition loop (bytes : list ascii) (localIP : IPAddress) (resetLow : bool)
    (k : Sketch) : Run (Sketch * bool) :=
  handleLX200Client bytes ;;;
  k' <- checkWifiDisplayIp localIP k ;;
  ret (k', resetLow).

(** ** Vocabulary of the further statements *)

(** The framing state after a run of bytes. *)
Fixpoint framing_after (bytes : list ascii) (k : Conn) : Conn :=
  match bytes with
  | [] => k
  | c :: rest => framing_after rest (fst (frameByte c k))
  end.

(** Everything the Teensy has sent or will send that is still unread. *)
Definition pending (w : World) : list ascii :=
  uart_rx w ++ flat_map snd (wire w).

(** By how much the clock moves during a run of poll intervals. *)
Definition ticks (l : list Slot) : Z :=
  Z.of_nat (List.length (filter fst l)).

(** The same world with the clock at [t]. *)
Definition at_time (t : Z) (w : World) : World :=
  mkWorld t (uart_rx w) (wire w) (uart_tx w) (sock_tx w).

(** What is to be said of the label of a byte, as a test. *)
Definition label_check (c : ascii) : bool :=
  let l := getAsciiLabel c in
  forallb isprint l
  && (negb (isprint c) || (l == [c]))
  && Bool.eqb (List.length l =? 2)%nat
       (Ascii.eqb c "010" || Ascii.eqb c "013" || Ascii.eqb c "009")
  && ((List.length l =? 1)%nat || (List.length l =? 2)%nat).

(** What a client sends: garbage without ':' and then a command, repeatedly. *)
Definition transmit (session : list (list ascii * Str)) : list ascii :=
  flat_map (fun jc => fst jc ++ snd jc) session.

(* ================================================================== *)
(** * Facts about strings *)

Lemma equals_eq (a b : Str) : (a == b) = true <-> a = b.
Proof.
  revert b; induction a as [|x a IH]; intros [|y b]; simpl; split;
    try congruence; try reflexivity.
  - intros H. apply andb_true_iff in H as [Hx Hab].
    apply Ascii.eqb_eq in Hx. apply IH in Hab. congruence.
  - intros H. injection H as -> ->. rewrite Ascii.eqb_refl. simpl.
    now apply IH.
Qed.

Lemma equals_refl (a : Str) : (a == a) = true.
Proof. now apply equals_eq. Qed.

Lemma equals_neq (a b : Str) : (a == b) = false <-> a <> b.
Proof.
  rewrite <- equals_eq. destruct (a == b); split; congruence.
Qed.

Lemma startsWith_app (p s : Str) : startsWith (p ++ s) p = true.
Proof.
  induction p as [|y p IH]; simpl; [reflexivity|].
  now rewrite Ascii.eqb_refl, IH.
Qed.

Lemma startsWith_prefix (s p : Str) :
  startsWith s p = true <-> exists rest, s = p ++ rest.
Proof.
  split.
  - revert s; induction p as [|y p IH]; intros s H; simpl in *.
    + now exists s.
    + destruct s as [|x s]; [discriminate|].
      apply andb_true_iff in H as [Hx Hs]. apply Ascii.eqb_eq in Hx; subst.
      destruct (IH _ Hs) as [rest ->]. now exists rest.
  - intros [rest ->]. apply startsWith_app.
Qed.

(** ** Comparison as a C string routine would do it

    The model compares byte sequences.  A comparison that stops at the first
    NUL byte gives the same verdict against every literal of the program (each
    ends in '#' and holds no NUL) for every string whose only '#', if any, is
    its last byte: all framed commands and all replies of the reader. *)

Lemma hash_ends_tail (x : ascii) (s : Str) : hash_ends (x :: s) -> hash_ends s.
Proof.
  intros ([|b body] & Hb & [H|H]); try discriminate.
  - injection H as _ ->. exists []. split; [intros []|now left].
  - injection H as _ ->. exists body. simpl in Hb. split; [tauto|now left].
  - injection H as _ ->. exists body. simpl in Hb. split; [tauto|now right].
Qed.

Lemma hash_ends_head (s : Str) : hash_ends ("#"%char :: s) -> s = [].
Proof.
  intros ([|b body] & Hb & [H|H]); try discriminate.
  - now injection H.
  - injection H as <- _. simpl in Hb. tauto.
  - injection H as <- _. simpl in Hb. tauto.
Qed.

Lemma until_nul_equals (s : Str) : forall l,
  hash_ends s -> ~ In "000"%char l -> (exists body, l = body ++ ["#"%char]) ->
  (until_nul s == l) = (s == l).
Proof.
  induction s as [|x s IH]; intros l Hs Hnul Hl; [reflexivity|].
  destruct l as [|y l]; [destruct Hl as [[|? ?] ?]; discriminate|].
  simpl in Hnul. simpl.
  destruct (Ascii.eqb_spec x "000") as [->|Hx].
  - destruct (Ascii.eqb_spec "000" y) as [<-|_]; [tauto|reflexivity].
  - simpl. destruct (Ascii.eqb_spec x y) as [<-|_]; [|reflexivity]. simpl.
    destruct l as [|z l].
    + destruct Hl as [[|? [|? ?]] Hl]; try discriminate.
      injection Hl as ->. now rewrite (hash_ends_head s Hs).
    + apply IH.
      * exact (hash_ends_tail x s Hs).
      * tauto.
      * destruct Hl as [[|b body] Hl]; [discriminate|].
        injection Hl as _ ->. now exists body.
Qed.

(* ================================================================== *)
(** * Facts about the clock and the busy-wait loop *)

Lemma sub32_range (a b : Z) : (0 <= sub32 a b < 2 ^ 32)%Z.
Proof. unfold sub32. apply Z.mod_pos_bound. lia. Qed.

Lemma sub32_millis (w : World) (start : Z) :
  sub32 (millis w) start = ((now w - start) mod 2 ^ 32)%Z.
Proof. unfold sub32, millis. now rewrite Zminus_mod_idemp_l. Qed.

Lemma sub32_millis_self (w : World) : sub32 (millis w) (millis w) = 0%Z.
Proof. unfold sub32. now rewrite Z.sub_diag. Qed.

(** What a poll does to the clock and to the elapsed time. *)
Lemma now_poll (w : World) : now (poll w) = (now w + ticked w)%Z.
Proof. unfold poll, ticked. now destruct (wire w) as [|[tick bs] rest]. Qed.

Lemma ticked_range (w : World) : (0 <= ticked w <= 1)%Z.
Proof.
  unfold ticked. destruct (wire w) as [|[[|] bs] rest]; lia.
Qed.

Lemma sub32_poll_exact (w : World) (start : Z) :
  (sub32 (millis w) start + 1 < 2 ^ 32)%Z ->
  sub32 (millis (poll w)) start = (sub32 (millis w) start + ticked w)%Z.
Proof.
  rewrite !sub32_millis, now_poll. intros Hlt.
  pose proof (ticked_range w) as Ht.
  assert (Hr : (0 <= (now w - start) mod 2 ^ 32)%Z)
    by (apply Z.mod_pos_bound; lia).
  replace (now w + ticked w - start)%Z with ((now w - start) + ticked w)%Z
    by lia.
  rewrite <- Zplus_mod_idemp_l. apply Z.mod_small. lia.
Qed.

Section BusyWait.
Context {S R : Type}.
Variable body : S -> World -> Flow S R.
Variables timeout start : Z.

Lemma while_millis_fuel_total :
  instant body -> (timeout < 2 ^ 32)%Z ->
  forall fuel s w,
    (List.length (wire w) + Z.to_nat (timeout - sub32 (millis w) start)
     < fuel)%nat ->
    while_millis_fuel fuel timeout start body s w <> None.
Proof.
  intros Hinst Hto. induction fuel as [|fuel IH]; intros s w Hfuel; [lia|].
  simpl. destruct (Z.ltb_spec (sub32 (millis w) start) timeout) as [Hlt|Hge];
    [|discriminate].
  destruct (body s w) as [s' w'|r w'] eqn:Hb; [|discriminate].
  apply IH. destruct (Hinst _ _ _ _ Hb) as [Hnow Hwire].
  assert (Hsame : sub32 (millis w') start = sub32 (millis w) start)
    by (rewrite !sub32_millis; now rewrite Hnow).
  pose proof (sub32_range (millis w) start) as Hrange.
  rewrite sub32_poll_exact by lia. rewrite Hsame. rewrite <- Hwire in Hfuel.
  unfold poll, ticked.
  destruct (wire w') as [|[[|] bs] rest]; simpl in *; lia.
Qed.

Lemma while_millis_total :
  instant body -> (timeout < 2 ^ 32)%Z ->
  forall s w, while_millis timeout start body s w <> None.
Proof.
  intros Hinst Hto s w. unfold while_millis.
  apply while_millis_fuel_total; trivial.
  pose proof (sub32_range (millis w) start). lia.
Qed.

(** The loop rule: an invariant [I] of the passes gives [Q] at the exit. *)
Lemma while_millis_fuel_rule (I : S -> World -> Prop)
    (Q : Exit S R -> World -> Prop) :
  (forall s w, I s w -> (sub32 (millis w) start < timeout)%Z ->
     match body s w with
     | Next s' w' => I s' (poll w')
     | Leave r w' => Q (Left r) w'
     end) ->
  (forall s w, I s w -> (timeout <= sub32 (millis w) start)%Z ->
     Q (Expired s) w) ->
  forall fuel s w e w',
    I s w -> while_millis_fuel fuel timeout start body s w = Some (e, w') ->
    Q e w'.
Proof.
  intros Hbody Hexit. induction fuel as [|fuel IH]; intros s w e w' HI Hrun;
    [discriminate|].
  simpl in Hrun.
  destruct (Z.ltb_spec (sub32 (millis w) start) timeout) as [Hlt|Hge].
  - specialize (Hbody _ _ HI Hlt).
    destruct (body s w) as [s1 w1|r w1].
    + exact (IH _ _ _ _ Hbody Hrun).
    + injection Hrun as <- <-. exact Hbody.
  - injection Hrun as <- <-. now apply Hexit.
Qed.

Lemma while_millis_rule (I : S -> World -> Prop)
    (Q : Exit S R -> World -> Prop) :
  (forall s w, I s w -> (sub32 (millis w) start < timeout)%Z ->
     match body s w with
     | Next s' w' => I s' (poll w')
     | Leave r w' => Q (Left r) w'
     end) ->
  (forall s w, I s w -> (timeout <= sub32 (millis w) start)%Z ->
     Q (Expired s) w) ->
  forall s w e w',
    I s w -> while_millis timeout start body s w = Some (e, w') -> Q e w'.
Proof.
  intros Hb He s w e w'. unfold while_millis.
  now apply while_millis_fuel_rule.
Qed.

End BusyWait.

(* ================================================================== *)
(** * What the serial routines write, and that they return *)

Lemma logs_kept_refl w : logs_kept w w.
Proof. now split. Qed.

Lemma logs_kept_trans w1 w2 w3 :
  logs_kept w1 w2 -> logs_kept w2 w3 -> logs_kept w1 w3.
Proof. unfold logs_kept. intros [-> ->] [-> ->]. now split. Qed.

Lemma logs_kept_poll w : logs_kept w (poll w).
Proof. unfold poll. destruct (wire w) as [|[tick bs] rest]; now split. Qed.

Lemma logs_kept_set_rx rx w : logs_kept w (set_rx rx w).
Proof. now split. Qed.

Lemma logs_kept_delay n w : logs_kept w (delay n w).
Proof. unfold delay. destruct (sleep (wire w) n). now split. Qed.

Create HintDb logs.
#[local] Hint Resolve logs_kept_refl logs_kept_poll logs_kept_set_rx
  logs_kept_delay : logs.

Ltac run_unfold := unfold bind, act, ask, ret in *.

Lemma ack_body_instant : instant ack_body.
Proof.
  intros [] w s' w' H. unfold ack_body in H.
  destruct (uart_rx w) as [|b rest].
  - injection H as _ <-. now split.
  - destruct (Ascii.eqb b "K"); [discriminate|].
    injection H as _ <-. now split.
Qed.

Lemma first_byte_body_instant : instant first_byte_body.
Proof.
  intros [] w s' w' H. unfold first_byte_body in H.
  destruct (available w); [discriminate|]. injection H as _ <-. now split.
Qed.

Lemma reply_body_instant : instant reply_body.
Proof.
  intros t w s' w' H. unfold reply_body in H.
  destruct (read_available t (uart_rx w)) as [[t' rx] [|]]; [discriminate|].
  injection H as _ <-. now split.
Qed.

Lemma ack_body_logs (u : unit) w :
  match ack_body u w with
  | Next _ w' => logs_kept w (poll w')
  | Leave _ w' => logs_kept w w'
  end.
Proof.
  unfold ack_body. destruct (uart_rx w) as [|b rest]; auto with logs.
  destruct (Ascii.eqb b "K").
  - unfold drain.
    eauto using logs_kept_trans, logs_kept_set_rx, logs_kept_delay.
  - eauto using logs_kept_trans, logs_kept_set_rx, logs_kept_poll.
Qed.

(** The handshake writes one 'L', nothing else, and returns. *)
Lemma handshakeTeensy_writes (w : World) :
  exists w', handshakeTeensy w = Some (tt, w')
             /\ uart_tx w' = uart_tx w ++ lit "L"
             /\ sock_tx w' = sock_tx w.
Proof.
  unfold handshakeTeensy. run_unfold.
  set (w1 := serial_write "L" w).
  destruct (while_millis TEENSY_ACK_TIMEOUT (millis w1) ack_body tt w1)
    as [[e w']|] eqn:Hrun.
  - exists w'. split; [reflexivity|].
    change (logs_kept w1 w').
    refine (while_millis_rule _ _ _ (fun _ v => logs_kept w1 v)
              (fun _ v => logs_kept w1 v) _ _ _ _ _ _ (logs_kept_refl w1) Hrun).
    + intros u v Hv _. pose proof (ack_body_logs u v) as Hb.
      destruct (ack_body u v); eauto using logs_kept_trans.
    + trivial.
  - exfalso. revert Hrun. apply while_millis_total.
    + exact ack_body_instant.
    + reflexivity.
Qed.

(** ** The shape of a reply *)

Lemma read_available_shape (rx : list ascii) : forall t t' rx' found,
  ~ In "#"%char t ->
  read_available t rx = (t', rx', found) ->
  if found then exists body, ~ In "#"%char body /\ t' = body ++ ["#"%char]
  else ~ In "#"%char t' /\ rx' = [].
Proof.
  induction rx as [|rc rx IH]; intros t t' rx' found Ht H; simpl in H.
  - injection H as <- <- <-. now split.
  - destruct (is_junk rc); [now apply (IH t)|].
    destruct (Ascii.eqb_spec rc "#") as [->|Hrc].
    + injection H as <- <- <-. now exists t.
    + apply (IH (t ++ [rc])); trivial.
      rewrite in_app_iff. simpl. intros [?|[?|[]]]; auto.
Qed.

Lemma reply_body_logs t w :
  match reply_body t w with
  | Next _ w' => logs_kept w (poll w')
  | Leave _ w' => logs_kept w w'
  end.
Proof.
  unfold reply_body.
  destruct (read_available t (uart_rx w)) as [[t' rx] [|]];
    eauto using logs_kept_trans, logs_kept_set_rx, logs_kept_poll.
Qed.

(** The reader writes nothing, returns, and what it returns has its '#', if
    any, at the end. *)
Lemma readTeensyResponse_returns (w : World) :
  exists r w', readTeensyResponse w = Some (r, w')
               /\ logs_kept w w' /\ hash_ends r.
Proof.
  unfold readTeensyResponse. run_unfold.
  destruct (while_millis 2300 (millis w) first_byte_body tt w)
    as [[e1 w1]|] eqn:Hrun1.
  2:{ exfalso. revert Hrun1. apply while_millis_total;
        [exact first_byte_body_instant | reflexivity]. }
  assert (H1 : logs_kept w w1).
  { refine (while_millis_rule _ _ _ (fun _ v => logs_kept w v)
              (fun _ v => logs_kept w v) _ _ _ _ _ _ (logs_kept_refl w) Hrun1);
      [|trivial].
    intros u v Hv _. unfold first_byte_body.
    destruct (available v); eauto using logs_kept_trans, logs_kept_poll. }
  destruct (available w1); cbn [negb].
  2:{ exists [], w1. repeat split; try apply H1. exists [].
      now split; [|left]. }
  destruct (while_millis 350 (millis w1) reply_body (lit "") w1)
    as [[e2 w2]|] eqn:Hrun2.
  2:{ exfalso. revert Hrun2. apply while_millis_total;
        [exact reply_body_instant | reflexivity]. }
  assert (Hinit : logs_kept w1 w1 /\ ~ In "#"%char (lit ""))
    by (split; [apply logs_kept_refl | intros []]).
  assert (H2 : logs_kept w1 w2 /\
               match e2 with Left r | Expired r => hash_ends r end).
  { refine (while_millis_rule _ _ _
              (fun t v => logs_kept w1 v /\ ~ In "#"%char t)
              (fun e v => logs_kept w1 v /\
                     match e with Left r | Expired r => hash_ends r end)
              _ _ _ _ _ _ Hinit Hrun2).
    - intros t v [Hv Ht] _. pose proof (reply_body_logs t v) as Hl.
      unfold reply_body in *.
      destruct (read_available t (uart_rx v)) as [[t' rx] found] eqn:Hra.
      pose proof (read_available_shape _ _ _ _ _ Ht Hra) as Hs.
      destruct found.
      + split; [eauto using logs_kept_trans|].
        destruct Hs as [body [Hb ->]]. exists body. now split; [|right].
      + split; [eauto using logs_kept_trans|apply Hs].
    - intros t v [Hv Ht] _. split; trivial. exists t. now split; [|left]. }
  destruct H2 as [H2 Hr].
  destruct e2 as [r|r]; exists r, w2;
    (split; [reflexivity | split; [eapply logs_kept_trans; eauto | exact Hr]]).
Qed.

(** A reply compares with [0#] and [1#] as a C string routine would have it. *)
Lemma reply_compare_as_c_string (w w' : World) (r body : Str) :
  readTeensyResponse w = Some (r, w') ->
  ~ In "000"%char (body ++ ["#"%char]) ->
  (until_nul r == body ++ ["#"%char]) = (r == body ++ ["#"%char]).
Proof.
  intros Hrun Hnul. apply until_nul_equals; [|exact Hnul|now exists body].
  destruct (readTeensyResponse_returns w) as (r' & w'' & Hrun' & _ & Hr).
  rewrite Hrun in Hrun'. now injection Hrun' as <- _.
Qed.

(** A forwarded command: one 'L', then the command as [truncCmd] leaves it,
    then the reply as the reader returns it. *)
Lemma processLX200Command_forwards (cmd : Str) (w : World) :
  answered_locally cmd = false ->
  exists r w', processLX200Command cmd w = Some (r, w')
               /\ uart_tx w' = uart_tx w ++ lit "L" ++ truncCmd cmd
               /\ sock_tx w' = sock_tx w
               /\ hash_ends r.
Proof.
  unfold answered_locally, processLX200Command. intros ->. simpl. run_unfold.
  destruct (handshakeTeensy_writes w) as (w1 & -> & Htx1 & Hsock1).
  destruct (readTeensyResponse_returns (serial_write (truncCmd cmd) w1))
    as (r & w2 & -> & [Htx2 Hsock2] & Hr).
  exists r, w2. repeat split; trivial.
  - rewrite Htx2. simpl. rewrite Htx1. now rewrite <- app_assoc.
  - rewrite Hsock2. simpl. exact Hsock1.
Qed.

Lemma processLX200Command_local (cmd : Str) (w : World) :
  answered_locally cmd = true ->
  processLX200Command cmd w = Some (checkForAppSpecificCmds cmd, w).
Proof.
  unfold answered_locally, processLX200Command. now intros ->.
Qed.

Lemma answered_locally_set (cmd : Str) :
  answered_locally cmd = true <-> In cmd local_answer_set.
Proof.
  assert (Hin : forall c, In c local_answer_set <->
                  c = lit ":GVP#" \/ c = lit ":GVN#" \/ c = lit ":GVD#"
                  \/ c = lit ":GVT#").
  { intros c. unfold local_answer_set. simpl. intuition congruence. }
  rewrite Hin. unfold answered_locally, checkForAppSpecificCmds.
  destruct (cmd == ":GVP#") eqn:E1;
    [apply equals_eq in E1; split; [now auto | reflexivity]|].
  destruct (cmd == ":GVN#") eqn:E2;
    [apply equals_eq in E2; split; [now auto | reflexivity]|].
  destruct (cmd == ":GVD#") eqn:E3;
    [apply equals_eq in E3; split; [now auto | reflexivity]|].
  destruct (cmd == ":GVT#") eqn:E4;
    [apply equals_eq in E4; split; [now auto | reflexivity]|].
  apply equals_neq in E1, E2, E3, E4.
  split; [discriminate|]. intros [H|[H|[H|H]]]; contradiction.
Qed.

Lemma not_answered_locally (cmd : Str) :
  ~ In cmd local_answer_set -> answered_locally cmd = false.
Proof.
  intros H. destruct (answered_locally cmd) eqn:E; [|reflexivity].
  now apply answered_locally_set in E.
Qed.

Lemma isNoResponseCommand_set (cmd : Str) :
  isNoResponseCommand cmd = true <-> In cmd no_response_set.
Proof.
  unfold isNoResponseCommand, no_response_set. simpl.
  rewrite !orb_true_iff, !equals_eq. intuition congruence.
Qed.

(** The relay step on its own: what goes to the client for a reply, given
    what [processLX200Command] returned. *)
Lemma handleLX200Command_after (cmd reply : Str) (w w1 : World) :
  processLX200Command cmd w = Some (reply, w1) ->
  handleLX200Command cmd w =
    (let response :=
       if (reply == "1#") || (reply == "0#")
       then substring2 reply 0 1 else reply in
     if isNoResponseCommand cmd then ret tt
     else if (0 <? WString.length response)%Z then
       let response :=
         if startsWith cmd ":SC"
         then lit "1Updating Planetary Data#          #" else response in
       let response := if cmd == ":Q#" then lit "1" else response in
       act (client_write response)
     else ret tt) w1.
Proof. intros H. unfold handleLX200Command, bind. now rewrite H. Qed.

Lemma nonempty_length (r : Str) : (0 <? WString.length r)%Z = negb (r == "").
Proof. now destruct r. Qed.

Lemma startsWith_SC_not_special (cmd : Str) :
  startsWith cmd ":SC" = true ->
  isNoResponseCommand cmd = false /\ (cmd == ":Q#") = false
  /\ answered_locally cmd = false.
Proof.
  intros H. apply startsWith_prefix in H as [rest ->].
  repeat split; reflexivity.
Qed.

(* ================================================================== *)
(** * The claims about dispatch *)

(** C2.  Dispatching a command of the no-response set writes nothing to the
    client socket, whatever the serial link does, and the command is still
    forwarded: the Teensy gets the handshake byte 'L' and then the command,
    byte for byte. *)
Theorem no_response_command_is_silent (cmd : Str) (w : World) :
  In cmd no_response_set ->
  exists w', handleLX200Command cmd w = Some (tt, w')
             /\ sock_tx w' = sock_tx w
             /\ uart_tx w' = uart_tx w ++ lit "L" ++ cmd.
Proof.
  intros Hin.
  assert (Hloc : answered_locally cmd = false /\ truncCmd cmd = cmd).
  { unfold no_response_set in Hin. simpl in Hin.
    repeat (destruct Hin as [<-|Hin]; [now split|]). destruct Hin. }
  destruct Hloc as [Hloc Htr].
  destruct (processLX200Command_forwards cmd w Hloc)
    as (r & w1 & Hrun & Htx & Hsock & _).
  exists w1. rewrite (handleLX200Command_after _ _ _ _ Hrun).
  apply isNoResponseCommand_set in Hin. cbv zeta. rewrite Hin.
  now rewrite Htx, Htr.
Qed.

Lemma no_response_command_is_silent_witness :
  In (lit ":RS#") no_response_set
  /\ exists w', handleLX200Command ":RS#" (teensy_answers "1#") = Some (tt, w')
                /\ sock_tx w' = sock_tx (teensy_answers "1#")
                /\ uart_tx w'
                   = uart_tx (teensy_answers "1#") ++ lit "L" ++ lit ":RS#".
Proof.
  assert (H : In (lit ":RS#") no_response_set)
    by (unfold no_response_set; simpl; do 12 right; left; reflexivity).
  split; [exact H|].
  exact (no_response_command_is_silent (lit ":RS#") (teensy_answers "1#") H).
Defined.

(** C8.  The command [:SG+06.0#] goes to the Teensy as [:SG+06#]: after the
    handshake byte, the bytes written are the command without its ['.'] and
    without what follows it up to the ['#']. *)
Theorem timezone_command_is_truncated (w : World) :
  truncCmd ":SG+06.0#" = lit ":SG+06#"
  /\ exists reply w',
       processLX200Command ":SG+06.0#" w = Some (reply, w')
       /\ uart_tx w' = uart_tx w ++ lit "L" ++ lit ":SG+06#".
Proof.
  split; [reflexivity|].
  destruct (processLX200Command_forwards ":SG+06.0#" w eq_refl)
    as (r & w1 & Hrun & Htx & _).
  now exists r, w1.
Qed.

(** C9.  The reader always returns, and the string it returns holds '#' at
    most once, and then as its last byte. *)
Theorem reply_hash_only_last (w : World) :
  exists reply w',
    readTeensyResponse w = Some (reply, w')
    /\ (count_occ ascii_dec reply "#"%char <= 1)%nat
    /\ (In "#"%char reply -> exists body, reply = body ++ ["#"%char]
                                          /\ ~ In "#"%char body).
Proof.
  destruct (readTeensyResponse_returns w) as (r & w' & Hrun & _ & Hshape).
  exists r, w'. split; [exact Hrun|].
  destruct Hshape as (body & Hbody & [->| ->]).
  - split; [|contradiction].
    apply (count_occ_not_In ascii_dec) in Hbody. lia.
  - split.
    + rewrite count_occ_app. apply (count_occ_not_In ascii_dec) in Hbody.
      rewrite Hbody. simpl. destruct (ascii_dec "#" "#"); [lia|congruence].
    + intros _. now exists body.
Qed.

(** What [processLX200Command] leaves on the client socket: nothing. *)
Lemma processLX200Command_sock (cmd reply : Str) (w w1 : World) :
  processLX200Command cmd w = Some (reply, w1) -> sock_tx w1 = sock_tx w.
Proof.
  intros Hrun. destruct (answered_locally cmd) eqn:Hloc.
  - rewrite (processLX200Command_local cmd w Hloc) in Hrun.
    now injection Hrun as _ <-.
  - destruct (processLX200Command_forwards cmd w Hloc)
      as (r & w' & Hrun' & _ & Hsock & _).
    rewrite Hrun' in Hrun. now injection Hrun as _ <-.
Qed.

(** C1, as amended.  For a command that begins with [:SC] and ends with ['#'],
    whatever its payload: when the reply that comes back from the serial link
    is not empty, the client is sent exactly
    [1Updating Planetary Data#          #]. *)
Theorem set_date_reply_is_literal (payload reply : Str) (w w1 : World) :
  processLX200Command (lit ":SC" ++ payload ++ lit "#") w = Some (reply, w1) ->
  reply <> lit "" ->
  exists w',
    handleLX200Command (lit ":SC" ++ payload ++ lit "#") w = Some (tt, w')
    /\ sock_tx w' = sock_tx w ++ planetary_data.
Proof.
  intros Hrun Hreply.
  rewrite (handleLX200Command_after _ _ _ _ Hrun).
  rewrite <- (processLX200Command_sock _ _ _ _ Hrun).
  assert (Hsc : startsWith (lit ":SC" ++ payload ++ lit "#") ":SC" = true)
    by apply startsWith_app.
  destruct (startsWith_SC_not_special _ Hsc) as (Hnr & Hq & _).
  cbv zeta. rewrite Hnr, Hsc, Hq, nonempty_length.
  assert (Hne : ((if (reply == "1#") || (reply == "0#")
                  then substring2 reply 0 1 else reply) == "") = false).
  { destruct ((reply == "1#") || (reply == "0#")) eqn:Hb.
    - apply orb_true_iff in Hb as [Hb|Hb]; apply equals_eq in Hb; now subst.
    - now apply equals_neq. }
  rewrite Hne. simpl. eexists. split; reflexivity.
Qed.

Lemma set_date_reply_is_literal_witness :
  exists w1 w',
    processLX200Command (lit ":SC" ++ lit "03/15/25" ++ lit "#")
      (teensy_answers "1#") = Some (lit "1#", w1)
    /\ handleLX200Command (lit ":SC" ++ lit "03/15/25" ++ lit "#")
         (teensy_answers "1#") = Some (tt, w')
    /\ sock_tx w' = sock_tx (teensy_answers "1#") ++ planetary_data.
Proof.
  eexists.
  assert (Hrun : processLX200Command (lit ":SC" ++ lit "03/15/25" ++ lit "#")
                   (teensy_answers "1#") = Some (lit "1#", _))
    by (vm_compute; reflexivity).
  assert (Hne : lit "1#" <> lit "") by discriminate.
  destruct (set_date_reply_is_literal _ _ _ _ Hrun Hne) as [w' H].
  exists w'. split; [exact Hrun | exact H].
Defined.

(** C1 as stated fails: when nothing comes back from the serial link, the
    client is sent nothing. *)
Lemma set_date_reply_counterexample :
  exists w1 w',
    processLX200Command ":SC03/15/25#" teensy_silent = Some (lit "", w1)
    /\ handleLX200Command ":SC03/15/25#" teensy_silent = Some (tt, w')
    /\ sock_tx w' = sock_tx teensy_silent
    /\ sock_tx w' <> sock_tx teensy_silent ++ planetary_data.
Proof.
  do 2 eexists. split; [vm_compute; reflexivity|].
  split; [vm_compute; reflexivity|]. split; [reflexivity|discriminate].
Qed.

(** C7, as amended.  For the command [:Q#]: when the reply that comes back
    from the serial link is not empty (the controller answers with a lone
    ['#']), the client is sent exactly [1]. *)
Theorem abort_reply_is_one (reply : Str) (w w1 : World) :
  processLX200Command ":Q#" w = Some (reply, w1) ->
  reply <> lit "" ->
  exists w',
    handleLX200Command ":Q#" w = Some (tt, w')
    /\ sock_tx w' = sock_tx w ++ lit "1".
Proof.
  intros Hrun Hreply.
  rewrite (handleLX200Command_after _ _ _ _ Hrun).
  rewrite <- (processLX200Command_sock _ _ _ _ Hrun).
  cbv zeta. rewrite nonempty_length.
  assert (Hne : ((if (reply == "1#") || (reply == "0#")
                  then substring2 reply 0 1 else reply) == "") = false).
  { destruct ((reply == "1#") || (reply == "0#")) eqn:Hb.
    - apply orb_true_iff in Hb as [Hb|Hb]; apply equals_eq in Hb; now subst.
    - now apply equals_neq. }
  rewrite Hne. simpl. eexists. split; reflexivity.
Qed.

Lemma abort_reply_is_one_witness :
  exists w1 w',
    processLX200Command ":Q#" (teensy_answers "#") = Some (lit "#", w1)
    /\ handleLX200Command ":Q#" (teensy_answers "#") = Some (tt, w')
    /\ sock_tx w' = sock_tx (teensy_answers "#") ++ lit "1".
Proof.
  eexists.
  assert (Hrun : processLX200Command ":Q#" (teensy_answers "#")
                 = Some (lit "#", _)) by (vm_compute; reflexivity).
  assert (Hne : lit "#" <> lit "") by discriminate.
  destruct (abort_reply_is_one _ _ _ Hrun Hne) as [w' H].
  exists w'. split; [exact Hrun | exact H].
Defined.

(** C7 as stated fails: when nothing comes back from the serial link, the
    client is sent nothing. *)
Lemma abort_reply_counterexample :
  exists w1 w',
    processLX200Command ":Q#" teensy_silent = Some (lit "", w1)
    /\ handleLX200Command ":Q#" teensy_silent = Some (tt, w')
    /\ sock_tx w' = sock_tx teensy_silent
    /\ sock_tx w' <> sock_tx teensy_silent ++ lit "1".
Proof.
  do 2 eexists. split; [vm_compute; reflexivity|].
  split; [vm_compute; reflexivity|]. split; [reflexivity|discriminate].
Qed.

(** C4, as amended.  For a command outside the no-response set that does not
    begin with [:SC] and is not [:Q#]: a reply that is exactly [0#] or [1#]
    reaches the client as [0] or [1], and any other reply reaches it byte for
    byte. *)
Theorem reply_is_relayed (cmd reply : Str) (w w1 : World) :
  ~ In cmd no_response_set ->
  startsWith cmd ":SC" = false ->
  cmd <> lit ":Q#" ->
  processLX200Command cmd w = Some (reply, w1) ->
  exists w',
    handleLX200Command cmd w = Some (tt, w')
    /\ (reply = lit "0#" -> sock_tx w' = sock_tx w ++ lit "0")
    /\ (reply = lit "1#" -> sock_tx w' = sock_tx w ++ lit "1")
    /\ (reply <> lit "0#" -> reply <> lit "1#" ->
        sock_tx w' = sock_tx w ++ reply).
Proof.
  intros Hnr Hsc Hq Hrun. apply equals_neq in Hq.
  assert (Hnr' : isNoResponseCommand cmd = false).
  { destruct (isNoResponseCommand cmd) eqn:E; [|reflexivity].
    now apply isNoResponseCommand_set in E. }
  clear Hnr. rename Hnr' into Hnr.
  rewrite (handleLX200Command_after _ _ _ _ Hrun).
  rewrite <- (processLX200Command_sock _ _ _ _ Hrun).
  cbv zeta. rewrite Hnr, Hsc, Hq, nonempty_length.
  destruct (reply == "1#") eqn:H1; [apply equals_eq in H1; subst|].
  { eexists. split; [reflexivity|].
    repeat split; try discriminate; congruence. }
  destruct (reply == "0#") eqn:H0; [apply equals_eq in H0; subst|].
  { eexists. split; [reflexivity|].
    repeat split; try discriminate; congruence. }
  apply equals_neq in H1, H0. simpl.
  destruct reply as [|c reply].
  - simpl. exists w1. split; [reflexivity|].
    repeat split; try discriminate. intros _ _. now rewrite app_nil_r.
  - simpl. eexists. split; [reflexivity|].
    repeat split; intros;
      first [reflexivity | exfalso; apply H0; assumption
            | exfalso; apply H1; assumption].
Qed.

Lemma reply_is_relayed_witness :
  exists w1 w',
    processLX200Command ":MS#" (teensy_answers "0#") = Some (lit "0#", w1)
    /\ handleLX200Command ":MS#" (teensy_answers "0#") = Some (tt, w')
    /\ sock_tx w' = sock_tx (teensy_answers "0#") ++ lit "0".
Proof.
  eexists.
  assert (Hrun : processLX200Command ":MS#" (teensy_answers "0#")
                 = Some (lit "0#", _)) by (vm_compute; reflexivity).
  assert (Hq : lit ":MS#" <> lit ":Q#") by discriminate.
  assert (Hnr : ~ In (lit ":MS#") no_response_set).
  { simpl. intros H.
    repeat (destruct H as [H|H]; [discriminate H|]). destruct H. }
  destruct (reply_is_relayed (lit ":MS#") _ _ _ Hnr eq_refl Hq Hrun)
    as (w' & Hw' & H0 & _).
  exists w'. split; [exact Hrun|]. split; [exact Hw' | exact (H0 eq_refl)].
Defined.

(** C4 as stated fails: the reply ['#'] to [:Q#] is neither [0#] nor [1#],
    and the client is sent [1] in its place. *)
Lemma reply_is_relayed_counterexample :
  exists w1 w',
    processLX200Command ":Q#" (teensy_answers "#") = Some (lit "#", w1)
    /\ handleLX200Command ":Q#" (teensy_answers "#") = Some (tt, w')
    /\ sock_tx w' = sock_tx (teensy_answers "#") ++ lit "1"
    /\ sock_tx w' <> sock_tx (teensy_answers "#") ++ lit "#".
Proof.
  do 2 eexists. split; [vm_compute; reflexivity|].
  split; [vm_compute; reflexivity|]. split; [reflexivity|discriminate].
Qed.

Lemma truncCmd_other (cmd : Str) : cmd <> lit ":SG+06.0#" -> truncCmd cmd = cmd.
Proof. intros H. apply equals_neq in H. unfold truncCmd. now rewrite H. Qed.

(** The copy that goes to the Teensy, read off the command. *)
Lemma truncCmd_cases (cmd : Str) :
  truncCmd cmd = if cmd == ":SG+06.0#" then lit ":SG+06#" else cmd.
Proof.
  unfold truncCmd. destruct (cmd == ":SG+06.0#") eqn:E; [|reflexivity].
  apply equals_eq in E. now rewrite E.
Qed.

Lemma forwarded_cases (cmd : Str) :
  forwarded cmd
  = if existsb (equals cmd) local_answer_set then lit ""
    else lit "L" ++ (if cmd == ":SG+06.0#" then lit ":SG+06#" else cmd).
Proof.
  unfold forwarded, answered_locally, checkForAppSpecificCmds.
  rewrite truncCmd_cases. unfold local_answer_set.
  cbn [map existsb].
  destruct (cmd == ":GVP#"); [reflexivity|].
  destruct (cmd == ":GVN#"); [reflexivity|].
  destruct (cmd == ":GVD#"); [reflexivity|].
  destruct (cmd == ":GVT#"); reflexivity.
Qed.

(** C10, as amended.  The rewrite applies to [:SG+06.0#] and to nothing else:
    any other command that the bridge does not answer itself goes to the
    Teensy byte for byte, right after the handshake byte. *)
Theorem only_one_command_is_rewritten (cmd : Str) (w : World) :
  cmd <> lit ":SG+06.0#" ->
  ~ In cmd local_answer_set ->
  truncCmd cmd = cmd
  /\ exists reply w',
       processLX200Command cmd w = Some (reply, w')
       /\ uart_tx w' = uart_tx w ++ lit "L" ++ cmd.
Proof.
  intros Hne Hloc. apply not_answered_locally in Hloc.
  pose proof (truncCmd_other cmd Hne) as Htr.
  split; [exact Htr|].
  destruct (processLX200Command_forwards cmd w Hloc)
    as (r & w1 & Hrun & Htx & _).
  exists r, w1. now rewrite <- Htr at 2.
Qed.

Lemma only_one_command_is_rewritten_witness :
  (truncCmd ":SG+05.5#" = lit ":SG+05.5#"
   /\ exists reply w',
        processLX200Command ":SG+05.5#" (teensy_answers "1#") = Some (reply, w')
        /\ uart_tx w'
           = uart_tx (teensy_answers "1#") ++ lit "L" ++ lit ":SG+05.5#")
  /\ (truncCmd ":SG-06.0#" = lit ":SG-06.0#"
      /\ exists reply w',
           processLX200Command ":SG-06.0#" teensy_silent = Some (reply, w')
           /\ uart_tx w' = uart_tx teensy_silent ++ lit "L" ++ lit ":SG-06.0#").
Proof.
  split.
  - apply (only_one_command_is_rewritten (lit ":SG+05.5#"));
      [discriminate|].
    simpl. intros [H|[H|[H|[H|[]]]]]; discriminate H.
  - apply (only_one_command_is_rewritten (lit ":SG-06.0#"));
      [discriminate|].
    simpl. intros [H|[H|[H|[H|[]]]]]; discriminate H.
Defined.

(** C10 as stated fails: [:GVP#] is not [:SG+06.0#], and nothing at all is
    written to the Teensy for it. *)
Lemma only_one_command_is_rewritten_counterexample :
  lit ":GVP#" <> lit ":SG+06.0#"
  /\ exists reply w',
       processLX200Command ":GVP#" teensy_silent = Some (reply, w')
       /\ uart_tx w' = uart_tx teensy_silent
       /\ uart_tx w' <> uart_tx teensy_silent ++ lit "L" ++ lit ":GVP#".
Proof.
  split; [discriminate|]. do 2 eexists.
  split; [vm_compute; reflexivity|]. split; [reflexivity|discriminate].
Qed.

(* ================================================================== *)
(** * Framing *)

(** Between commands the accumulator does not matter. *)
Lemma framed_idle_any_buffer (bytes : list ascii) : forall buf buf',
  framed bytes (mkConn false buf) = framed bytes (mkConn false buf').
Proof.
  induction bytes as [|c rest IH]; intros buf buf'; [reflexivity|].
  simpl. unfold frameByte. simpl.
  destruct (Ascii.eqb c "006"); [apply IH|].
  destruct (Ascii.eqb c ":"); [reflexivity|].
  rewrite andb_false_r. apply IH.
Qed.

(** Bytes that come in between commands leave no trace. *)
Lemma framed_skips_junk (junk rest : list ascii) : forall buf,
  ~ In ":"%char junk ->
  framed (junk ++ rest) (mkConn false buf) = framed rest (mkConn false "").
Proof.
  induction junk as [|c junk IH]; intros buf Hj.
  - apply framed_idle_any_buffer.
  - simpl in Hj. simpl. unfold frameByte. simpl.
    destruct (Ascii.eqb c "006"); [apply IH; tauto|].
    destruct (Ascii.eqb_spec c ":") as [->|_]; [tauto|].
    rewrite andb_false_r. apply IH. tauto.
Qed.

(** While a command is being received every byte but the probe is appended,
    a ':' like any other, until the first '#'. *)
Lemma framed_receiving (payload rest : list ascii) : forall buf,
  ~ In "#"%char payload ->
  framed (payload ++ "#"%char :: rest) (mkConn true buf)
  = (buf ++ filter (fun c => negb (is_probe c)) payload ++ ["#"%char])
      :: framed rest (mkConn false "").
Proof.
  induction payload as [|c payload IH]; intros buf Hp.
  - simpl. unfold frameByte. simpl. f_equal. apply framed_idle_any_buffer.
  - simpl in Hp. simpl. unfold frameByte, is_probe. simpl.
    destruct (Ascii.eqb c "006"); simpl; [apply IH; tauto|].
    destruct (Ascii.eqb_spec c "#") as [->|_]; [tauto|]. simpl.
    rewrite IH by tauto. now rewrite <- app_assoc.
Qed.

Lemma framed_receiving_some (bytes : list ascii) : forall buf,
  In "#"%char bytes -> framed bytes (mkConn true buf) <> [].
Proof.
  induction bytes as [|c rest IH]; intros buf Hin; [destruct Hin|].
  simpl. unfold frameByte. simpl.
  destruct (Ascii.eqb_spec c "006") as [->|_].
  - apply IH. destruct Hin as [Hc|Hin]; [discriminate|exact Hin].
  - destruct (Ascii.eqb_spec c "#") as [->|Hc]; simpl; [discriminate|].
    apply IH. destruct Hin as [Hc'|Hin]; [congruence|exact Hin].
Qed.

Lemma framed_receiving_none (bytes : list ascii) : forall buf,
  ~ In "#"%char bytes -> framed bytes (mkConn true buf) = [].
Proof.
  induction bytes as [|c rest IH]; intros buf Hin; [reflexivity|].
  simpl in Hin. simpl. unfold frameByte. simpl.
  destruct (Ascii.eqb c "006"); [apply IH; tauto|].
  destruct (Ascii.eqb_spec c "#") as [->|Hc]; simpl; [tauto|].
  apply IH. tauto.
Qed.

Lemma framed_idle_some (pre mid post : list ascii) : forall buf,
  framed (pre ++ ":"%char :: mid ++ "#"%char :: post) (mkConn false buf) <> [].
Proof.
  assert (Hin : forall l,
             In "#"%char (l ++ ":"%char :: mid ++ "#"%char :: post)).
  { intros l. rewrite in_app_iff. right. right.
    rewrite in_app_iff. right. now left. }
  induction pre as [|c pre IH]; intros buf.
  - simpl. unfold frameByte. simpl. apply framed_receiving_some.
    rewrite in_app_iff. right. now left.
  - simpl. unfold frameByte. simpl.
    destruct (Ascii.eqb c "006"); [apply IH|].
    destruct (Ascii.eqb c ":"); [apply framed_receiving_some, Hin|].
    rewrite andb_false_r. apply IH.
Qed.

Lemma framed_idle_span (bytes : list ascii) : forall buf,
  framed bytes (mkConn false buf) <> [] ->
  exists pre mid post, bytes = pre ++ ":"%char :: mid ++ "#"%char :: post.
Proof.
  induction bytes as [|c rest IH]; intros buf H; [now contradiction H|].
  simpl in H. unfold frameByte in H. simpl in H.
  destruct (Ascii.eqb c "006").
  { destruct (IH _ H) as (pre & mid & post & ->).
    now exists (c :: pre), mid, post. }
  destruct (Ascii.eqb_spec c ":") as [->|_].
  - destruct (in_dec ascii_dec "#"%char rest) as [Hin|Hnin].
    + apply in_split in Hin as (mid & post & ->). now exists [], mid, post.
    + simpl in H. now rewrite framed_receiving_none in H.
  - rewrite andb_false_r in H.
    destruct (IH _ H) as (pre & mid & post & ->).
    now exists (c :: pre), mid, post.
Qed.

(** Whatever the client sends, each command handed over is well framed. *)
Lemma framed_well_framed (bytes : list ascii) : forall k,
  (receivingCmd k = true ->
   exists p, lx200Cmd k = ":"%char :: p /\ ~ In "#"%char p) ->
  Forall well_framed (framed bytes k).
Proof.
  induction bytes as [|c rest IH]; intros [rcv buf] Hk; [constructor|].
  simpl in Hk. simpl. unfold frameByte. simpl.
  destruct (Ascii.eqb c "006"); [now apply IH|].
  destruct rcv; simpl.
  - destruct (Hk eq_refl) as (p & -> & Hp).
    destruct (Ascii.eqb_spec c "#") as [->|Hc]; simpl.
    + constructor; [now exists p | apply IH; discriminate].
    + apply IH. intros _. exists (p ++ [c]). split; [reflexivity|].
      rewrite in_app_iff. simpl. intros [?|[?|[]]]; auto.
  - destruct (Ascii.eqb c ":"); simpl.
    + apply IH. intros _. exists []. now split.
    + rewrite andb_false_r. apply IH. discriminate.
Qed.

Lemma well_framed_hash_ends (cmd : Str) : well_framed cmd -> hash_ends cmd.
Proof.
  intros (p & -> & Hp). exists (":"%char :: p). split; [|now right].
  simpl. intros [H|H]; [discriminate|auto].
Qed.

(** The probe byte is answered and changes nothing in the framing. *)
Lemma probe_leaves_framing (k : Conn) : frameByte "006" k = (k, Probe).
Proof. reflexivity. Qed.

(** A framed command compares with a literal that ends in '#' and holds no
    NUL as a C string routine would have it. *)
Lemma framed_compare_as_c_string (bytes : list ascii) (cmd body : Str) :
  In cmd (framed bytes (mkConn false "")) ->
  ~ In "000"%char (body ++ ["#"%char]) ->
  (until_nul cmd == body ++ ["#"%char]) = (cmd == body ++ ["#"%char]).
Proof.
  intros Hin Hnul. apply until_nul_equals; [|exact Hnul|now exists body].
  apply well_framed_hash_ends.
  assert (H : Forall well_framed (framed bytes (mkConn false "")))
    by (apply framed_well_framed; discriminate).
  rewrite Forall_forall in H. now apply H.
Qed.

(** C3.  From the start of a connection: (1) a command is completed exactly
    when the bytes hold a ':' with a '#' somewhere after it; (2) bytes that
    arrive before the ':' of a command are in no command: the commands are
    those of the stream without them; (3) once a ':' has started a command,
    every byte up to the first '#' is payload, a further ':' included (only
    the probe byte 0x06 is held back), and (4) a ':' that arrives while a
    command is being received is appended and restarts nothing. *)
Theorem framer_behaviour :
  (forall bytes,
     framed bytes (mkConn false "") <> [] <->
     exists pre mid post, bytes = pre ++ ":"%char :: mid ++ "#"%char :: post)
  /\ (forall junk rest,
        ~ In ":"%char junk ->
        framed (junk ++ rest) (mkConn false "") = framed rest (mkConn false ""))
  /\ (forall payload rest,
        ~ In "#"%char payload ->
        framed (":"%char :: payload ++ "#"%char :: rest) (mkConn false "")
        = (":"%char :: filter (fun c => negb (is_probe c)) payload
             ++ ["#"%char])
            :: framed rest (mkConn false ""))
  /\ (forall buf,
        frameByte ":" (mkConn true buf)
        = (mkConn true (buf ++ [":"%char]), Quiet)).
Proof.
  split; [|split; [|split]].
  - intros bytes. split.
    + apply framed_idle_span.
    + intros (pre & mid & post & ->). apply framed_idle_some.
  - intros junk rest Hj. now apply framed_skips_junk.
  - intros payload rest Hp.
    change (framed (":"%char :: payload ++ "#"%char :: rest) (mkConn false ""))
      with (framed (payload ++ "#"%char :: rest) (mkConn true ":")).
    now rewrite framed_receiving.
  - reflexivity.
Qed.

Lemma framer_behaviour_witness :
  (framed (lit "#x:GR#") (mkConn false "") <> []
   <-> exists pre mid post,
         lit "#x:GR#" = pre ++ ":"%char :: mid ++ "#"%char :: post)
  /\ framed (lit "#x" ++ lit ":GR#") (mkConn false "")
     = framed (lit ":GR#") (mkConn false "")
  /\ framed (":"%char :: lit "Sr12:30:00" ++ "#"%char :: lit ":GD#")
            (mkConn false "")
     = (":"%char :: filter (fun c => negb (is_probe c)) (lit "Sr12:30:00")
          ++ ["#"%char])
         :: framed (lit ":GD#") (mkConn false "").
Proof.
  destruct framer_behaviour as (Hiff & Hjunk & Hpay & _).
  split; [exact (Hiff (lit "#x:GR#"))|]. split.
  - apply (Hjunk (lit "#x") (lit ":GR#")). simpl.
    intros [H|[H|[]]]; discriminate H.
  - apply (Hpay (lit "Sr12:30:00") (lit ":GD#")). simpl.
    intros H. repeat (destruct H as [H|H]; [discriminate H|]). destruct H.
Defined.

(* ================================================================== *)
(** * Waiting out a timeout *)

Lemma heard_zero (l : list Slot) : heard l 0 = [].
Proof. unfold heard. now destruct l. Qed.

Lemma heard_cons (tick : bool) (bs : list ascii) (l : list Slot) (n : nat) :
  heard ((tick, bs) :: l) (S n) = bs ++ heard l (if tick then n else S n).
Proof.
  unfold heard. cbn [sleep].
  now destruct (sleep l (if tick then n else S n)).
Qed.

Section WaitingOut.
Context {S R : Type}.
Variable body : S -> World -> Flow S R.
Variable timeout : Z.
(** The bytes the body reads and passes over. *)
Variable ok : ascii -> Prop.

Lemma while_millis_fuel_waits_out :
  passes_over body ok -> (0 <= timeout < 2 ^ 32)%Z ->
  forall fuel s w start,
    let e := sub32 (millis w) start in
    (e <= timeout)%Z ->
    Forall ok (uart_rx w ++ heard (wire w) (Z.to_nat (timeout - e))) ->
    (List.length (wire w) + Z.to_nat (timeout - e) < fuel)%nat ->
    exists s' w',
      while_millis_fuel fuel timeout start body s w = Some (Expired s', w')
      /\ now w' = (now w + (timeout - e))%Z
      /\ Forall ok (uart_rx w')
      /\ logs_kept w w'.
Proof.
  intros Hbody Hto. induction fuel as [|fuel IH];
    intros s w start e He Hok Hfuel; [lia|].
  pose proof (sub32_range (millis w) start) as Hrange. fold e in Hrange.
  simpl. fold e.
  destruct (Z.ltb_spec e timeout) as [Hlt|Hge].
  - apply Forall_app in Hok as [Hrx Hheard].
    destruct (Hbody s w Hrx) as (s' & rx' & -> & Hrx').
    set (v := set_rx rx' w).
    assert (Hev : sub32 (millis (poll v)) start = (e + ticked v)%Z)
      by (rewrite sub32_poll_exact;
          [reflexivity | change (e + 1 < 2 ^ 32)%Z; lia]).
    pose proof (ticked_range v) as Ht.
    destruct (Z.to_nat (timeout - e)) as [|n] eqn:Hn; [lia|].
    assert (Hgoal : exists s'' w',
               while_millis_fuel fuel timeout start body s' (poll v)
               = Some (Expired s'', w')
               /\ now w' = (now (poll v)
                            + (timeout - sub32 (millis (poll v)) start))%Z
               /\ Forall ok (uart_rx w') /\ logs_kept (poll v) w').
    { apply IH.
      - lia.
      - rewrite Hev. unfold poll, ticked. change (wire v) with (wire w).
        change (uart_rx v) with rx'.
        destruct (wire w) as [|[tick bs] rest] eqn:Hw; simpl.
        + destruct (Z.to_nat (timeout - (e + 1))); unfold heard; simpl;
            now rewrite app_nil_r.
        + rewrite heard_cons in Hheard. apply Forall_app in Hheard as [Hbs Hh].
          rewrite <- app_assoc. repeat (apply Forall_app; split); trivial.
          destruct tick.
          * replace (Z.to_nat (timeout - (e + 1))) with n by lia. exact Hh.
          * replace (Z.to_nat (timeout - (e + 0))) with (Datatypes.S n) by lia.
            exact Hh.
      - rewrite Hev. unfold poll, ticked in *.
        change (wire v) with (wire w) in *.
        destruct (wire w) as [|[tick bs] rest]; simpl in *; lia. }
    destruct Hgoal as (s'' & w' & Hrun & Hnow & Hrxw & Hlogs).
    exists s'', w'. split; [exact Hrun|]. split; [|split; [exact Hrxw|]].
    + rewrite Hnow, Hev, now_poll. change (now v) with (now w). lia.
    + eapply logs_kept_trans; [|exact Hlogs].
      eapply logs_kept_trans;
        [apply (logs_kept_set_rx rx' w)|apply logs_kept_poll].
  - exists s, w. split; [reflexivity|]. split; [lia|].
    split; [|apply logs_kept_refl].
    replace (Z.to_nat (timeout - e)) with 0%nat in Hok by lia.
    rewrite heard_zero, app_nil_r in Hok. exact Hok.
Qed.

Lemma while_millis_waits_out :
  passes_over body ok -> (0 <= timeout < 2 ^ 32)%Z ->
  forall s w,
    Forall ok (uart_rx w ++ heard (wire w) (Z.to_nat timeout)) ->
    exists s' w',
      while_millis timeout (millis w) body s w = Some (Expired s', w')
      /\ now w' = (now w + timeout)%Z
      /\ Forall ok (uart_rx w')
      /\ logs_kept w w'.
Proof.
  intros Hbody Hto s w Hok. unfold while_millis.
  destruct (while_millis_fuel_waits_out Hbody Hto
              (Datatypes.S (List.length (wire w) + Z.to_nat timeout))
              s w (millis w)) as (s' & w' & Hrun & Hnow & Hrest).
  - rewrite sub32_millis_self. lia.
  - rewrite sub32_millis_self, Z.sub_0_r. exact Hok.
  - rewrite sub32_millis_self, Z.sub_0_r. lia.
  - exists s', w'. split; [exact Hrun|]. split; [|exact Hrest].
    rewrite Hnow, sub32_millis_self. lia.
Qed.

End WaitingOut.

Lemma set_rx_same (w : World) : set_rx (uart_rx w) w = w.
Proof. now destruct w. Qed.

Lemma ack_body_passes_over : passes_over ack_body (fun b => b <> "K"%char).
Proof.
  intros [] w Hrx. unfold ack_body.
  destruct (uart_rx w) as [|b rest] eqn:Hw.
  - exists tt, []. split; [|constructor]. now rewrite <- Hw, set_rx_same.
  - inversion Hrx as [|? ? Hb Hrest]; subst.
    apply Ascii.eqb_neq in Hb. rewrite Hb. now exists tt, rest.
Qed.

Lemma first_byte_body_passes_over :
  passes_over first_byte_body (fun _ => False).
Proof.
  intros [] w Hrx. unfold first_byte_body, available.
  destruct (uart_rx w) as [|b rest] eqn:Hw.
  - exists tt, []. split; [|constructor]. now rewrite <- Hw, set_rx_same.
  - inversion Hrx as [|? ? Hb Hrest]; subst. destruct Hb.
Qed.

Lemma Forall_False_nil {A} (l : list A) : Forall (fun _ => False) l <-> l = [].
Proof.
  split; [|intros ->; constructor].
  destruct l; [reflexivity|]. intros H. now inversion H.
Qed.

(** A silent link: the reader gives up after 2300 ms with the empty string. *)
Lemma readTeensyResponse_silence (w : World) :
  uart_rx w = [] -> heard (wire w) 2300 = [] ->
  exists w', readTeensyResponse w = Some (lit "", w')
             /\ now w' = (now w + 2300)%Z
             /\ uart_rx w' = []
             /\ logs_kept w w'.
Proof.
  intros Hrx Hheard.
  destruct (while_millis_waits_out _ 2300 _ first_byte_body_passes_over
              ltac:(lia) tt w)
    as (s' & w' & Hrun & Hnow & Hrx' & Hlogs).
  { apply Forall_False_nil. change (Z.to_nat 2300) with 2300%nat.
    now rewrite Hrx, Hheard. }
  apply Forall_False_nil in Hrx'.
  exists w'. unfold readTeensyResponse. run_unfold. rewrite Hrun.
  unfold available. rewrite Hrx'. simpl. repeat split; trivial; apply Hlogs.
Qed.

(** C6.  For a forwarded command: when no 'K' is in the receive buffer and none
    arrives during the 500 ms of the handshake, the wait loop runs to its
    timeout and ends there; one 'L' was written, none is written again, and
    the bytes of the command are then written to the Teensy once, as for an
    acknowledged handshake ([:SG+06.0#] as [:SG+06#], any other command as it
    came), and its reply is read. *)
Theorem handshake_timeout_still_forwards (cmd : Str) (w : World) :
  ~ In cmd local_answer_set ->
  ~ In "K"%char (uart_rx w ++ heard (wire w) 500) ->
  exists w1 reply w',
    while_millis TEENSY_ACK_TIMEOUT (millis w) ack_body tt (serial_write "L" w)
      = Some (Expired tt, w1)
    /\ handshakeTeensy w = Some (tt, w1)
    /\ now w1 = (now w + TEENSY_ACK_TIMEOUT)%Z
    /\ uart_tx w1 = uart_tx w ++ lit "L"
    /\ processLX200Command cmd w = Some (reply, w')
    /\ uart_tx w'
       = uart_tx w ++ lit "L"
         ++ (if cmd == ":SG+06.0#" then lit ":SG+06#" else cmd).
Proof.
  intros Hloc Hk. apply not_answered_locally in Hloc.
  destruct (while_millis_waits_out _ TEENSY_ACK_TIMEOUT _ ack_body_passes_over
              ltac:(unfold TEENSY_ACK_TIMEOUT; lia) tt (serial_write "L" w))
    as ([] & w1 & Hrun & Hnow & _ & Hlogs).
  { apply Forall_forall. intros b Hb ->. exact (Hk Hb). }
  destruct (processLX200Command_forwards cmd w Hloc)
    as (reply & w' & Hcmd & Htx & _).
  exists w1, reply, w'.
  assert (Hhs : handshakeTeensy w = Some (tt, w1)).
  { unfold handshakeTeensy. run_unfold. now rewrite Hrun. }
  split; [exact Hrun|]. split; [exact Hhs|]. split; [exact Hnow|].
  split; [apply Hlogs|]. split; [exact Hcmd|].
  rewrite (truncCmd_cases cmd) in Htx. exact Htx.
Qed.

Lemma handshake_timeout_still_forwards_witness :
  exists w1 reply w',
    while_millis TEENSY_ACK_TIMEOUT (millis teensy_silent) ack_body tt
      (serial_write "L" teensy_silent) = Some (Expired tt, w1)
    /\ handshakeTeensy teensy_silent = Some (tt, w1)
    /\ now w1 = (now teensy_silent + TEENSY_ACK_TIMEOUT)%Z
    /\ uart_tx w1 = uart_tx teensy_silent ++ lit "L"
    /\ processLX200Command ":GR#" teensy_silent = Some (reply, w')
    /\ uart_tx w' = uart_tx teensy_silent ++ lit "L" ++ lit ":GR#".
Proof.
  apply (handshake_timeout_still_forwards (lit ":GR#") teensy_silent).
  - simpl. intros [H|[H|[H|[H|[]]]]]; discriminate H.
  - simpl. intros H. exact H.
Defined.

(* ================================================================== *)
(** * The bridge keeps no state of its own between commands *)

Lemma same_link_refl w : same_link w w.
Proof. now split. Qed.

Lemma same_link_poll w v : same_link w v -> same_link (poll w) (poll v).
Proof.
  intros [Hrx Hw]. unfold poll. rewrite Hrx, Hw.
  destruct (wire v) as [|[tick bs] rest]; now split.
Qed.

Lemma same_link_set_rx rx w v :
  wire w = wire v -> same_link (set_rx rx w) (set_rx rx v).
Proof. intros H. now split. Qed.

Lemma same_link_delay n w v :
  same_link w v -> same_link (delay n w) (delay n v).
Proof.
  intros [Hrx Hw]. unfold delay. rewrite Hrx, Hw.
  destruct (sleep (wire v) n); now split.
Qed.

Lemma same_link_serial_write bs w v :
  same_link w v -> same_link (serial_write bs w) (serial_write bs v).
Proof. intros [Hrx Hw]. now split. Qed.

Lemma same_link_ticked w v : same_link w v -> ticked w = ticked v.
Proof. intros [_ Hw]. unfold ticked. now rewrite Hw. Qed.

Section SameLink.
Context {S R : Type}.
Variable body : S -> World -> Flow S R.
Variable timeout : Z.

Lemma while_millis_fuel_same_link :
  link_only body -> (timeout < 2 ^ 32)%Z ->
  forall fuel s w v sw sv,
    same_link w v -> sub32 (millis w) sw = sub32 (millis v) sv ->
    match while_millis_fuel fuel timeout sw body s w,
          while_millis_fuel fuel timeout sv body s v with
    | Some (e1, w1), Some (e2, v1) => e1 = e2 /\ same_link w1 v1
    | None, None => True
    | _, _ => False
    end.
Proof.
  intros Hbody Hto. induction fuel as [|fuel IH];
    intros s w v sw sv Hl He; [exact I|].
  simpl. rewrite <- He.
  destruct (Z.ltb_spec (sub32 (millis w) sw) timeout) as [Hlt|Hge];
    [|now split].
  specialize (Hbody s w v Hl).
  destruct (body s w) as [s1 w1|r1 w1], (body s v) as [s2 v1|r2 v1];
    try contradiction; [|destruct Hbody as [<- Hl1]; now split].
  destruct Hbody as (<- & Hl1 & Hn1 & Hn2).
  apply IH; [now apply same_link_poll|].
  pose proof (sub32_range (millis w) sw) as Hr.
  assert (H1 : sub32 (millis w1) sw = sub32 (millis w) sw)
    by (rewrite !sub32_millis; now rewrite Hn1).
  assert (H2 : sub32 (millis v1) sv = sub32 (millis v) sv)
    by (rewrite !sub32_millis; now rewrite Hn2).
  rewrite !sub32_poll_exact by lia.
  rewrite H1, H2, <- He. f_equal. now apply same_link_ticked.
Qed.

Lemma while_millis_same_link :
  link_only body -> (timeout < 2 ^ 32)%Z ->
  forall s w v e w1,
    same_link w v ->
    while_millis timeout (millis w) body s w = Some (e, w1) ->
    exists v1, while_millis timeout (millis v) body s v = Some (e, v1)
               /\ same_link w1 v1.
Proof.
  intros Hbody Hto s w v e w1 Hl Hrun. unfold while_millis in *.
  destruct Hl as [Hrx Hw].
  pose proof (while_millis_fuel_same_link Hbody Hto
                (Datatypes.S (List.length (wire w) + Z.to_nat timeout))
                s w v (millis w) (millis v) (conj Hrx Hw)) as H.
  rewrite !sub32_millis_self in H. specialize (H eq_refl).
  rewrite Hrun in H. rewrite <- Hw.
  destruct (while_millis_fuel _ timeout (millis v) body s v)
    as [[e2 v1]|]; [|contradiction].
  destruct H as [<- Hl1]. now exists v1.
Qed.

End SameLink.

Lemma ack_body_link_only : link_only ack_body.
Proof.
  intros [] w v Hl. pose proof Hl as [Hrx Hw]. unfold ack_body. rewrite Hrx.
  destruct (uart_rx v) as [|b rest]; [now split; [|split; [exact Hl|]]|].
  pose proof (same_link_set_rx rest w v Hw) as Hl'.
  destruct (Ascii.eqb b "K").
  - split; [reflexivity|]. unfold drain. apply same_link_set_rx.
    now apply (same_link_delay 3 (set_rx rest w) (set_rx rest v)).
  - now split; [|split; [exact Hl'|]].
Qed.

Lemma first_byte_body_link_only : link_only first_byte_body.
Proof.
  intros [] w v Hl. pose proof Hl as [Hrx Hw].
  unfold first_byte_body, available. rewrite Hrx.
  destruct (uart_rx v); [now split; [|split; [exact Hl|]] | now split].
Qed.

Lemma reply_body_link_only : link_only reply_body.
Proof.
  intros t w v [Hrx Hw]. unfold reply_body. rewrite Hrx.
  pose proof (fun rx => same_link_set_rx rx w v Hw) as Hl'.
  destruct (read_available t (uart_rx v)) as [[t' rx] [|]].
  - now split.
  - now split; [|split; [apply Hl'|]].
Qed.

Lemma handshakeTeensy_same_link (w v w1 : World) :
  same_link w v -> handshakeTeensy w = Some (tt, w1) ->
  exists v1, handshakeTeensy v = Some (tt, v1) /\ same_link w1 v1.
Proof.
  intros Hl. unfold handshakeTeensy. run_unfold.
  destruct (while_millis TEENSY_ACK_TIMEOUT (millis (serial_write "L" w))
              ack_body tt (serial_write "L" w)) as [[e w']|] eqn:Hrun;
    [|discriminate].
  intros H. injection H as <-.
  destruct (while_millis_same_link ack_body TEENSY_ACK_TIMEOUT
              ack_body_link_only eq_refl tt _ (serial_write "L" v) _ _
              (same_link_serial_write "L" _ _ Hl) Hrun) as (v1 & -> & Hl1).
  now exists v1.
Qed.

Lemma readTeensyResponse_same_link (w v w1 : World) (r : Str) :
  same_link w v -> readTeensyResponse w = Some (r, w1) ->
  exists v1, readTeensyResponse v = Some (r, v1) /\ same_link w1 v1.
Proof.
  intros Hl. unfold readTeensyResponse. run_unfold.
  destruct (while_millis 2300 (millis w) first_byte_body tt w)
    as [[e1 w']|] eqn:Hrun1; [|discriminate].
  destruct (while_millis_same_link first_byte_body 2300
              first_byte_body_link_only eq_refl tt _ v _ _ Hl Hrun1)
    as (v' & -> & Hl').
  unfold available. pose proof Hl' as [Hrx' Hw']. rewrite <- Hrx'.
  destruct (uart_rx w') as [|b rest] eqn:Hb; cbn [negb].
  - intros H. injection H as <- <-. exists v'. now split.
  - destruct (while_millis 350 (millis w') reply_body (lit "") w')
      as [[e2 w'']|] eqn:Hrun2; [|discriminate].
    destruct (while_millis_same_link reply_body 350 reply_body_link_only
                eq_refl (lit "") _ v' _ _ Hl' Hrun2) as (v'' & -> & Hl'').
    destruct e2; intros H; injection H as <- <-; now exists v''.
Qed.

Lemma processLX200Command_same_link (cmd r : Str) (w v w1 : World) :
  same_link w v -> processLX200Command cmd w = Some (r, w1) ->
  exists v1, processLX200Command cmd v = Some (r, v1) /\ same_link w1 v1.
Proof.
  intros Hl. unfold processLX200Command.
  destruct (negb (WString.length (checkForAppSpecificCmds cmd) =? 0)%Z).
  - unfold ret. intros H. injection H as <- <-. now exists v.
  - run_unfold.
    destruct (handshakeTeensy w) as [[[] w']|] eqn:Hhs; [|discriminate].
    destruct (handshakeTeensy_same_link _ _ _ Hl Hhs) as (v' & -> & Hl').
    intros Hrd.
    apply (readTeensyResponse_same_link _ (serial_write (truncCmd cmd) v'))
      in Hrd; [exact Hrd|].
    now apply same_link_serial_write.
Qed.

(** What the relay step does to the world, given the reply. *)
Lemma handleLX200Command_relays (cmd reply : Str) :
  exists out,
    forall w w1, processLX200Command cmd w = Some (reply, w1) ->
      exists w', handleLX200Command cmd w = Some (tt, w')
                 /\ sock_tx w' = sock_tx w ++ out
                 /\ uart_tx w' = uart_tx w1
                 /\ same_link w' w1.
Proof.
  pose (response := if (reply == "1#") || (reply == "0#")
                    then substring2 reply 0 1 else reply).
  pose (final := if cmd == ":Q#" then lit "1"
                 else if startsWith cmd ":SC"
                      then lit "1Updating Planetary Data#          #"
                      else response).
  exists (if isNoResponseCommand cmd then []
          else if (0 <? WString.length response)%Z then final else []).
  intros w w1 Hrun.
  rewrite (handleLX200Command_after _ _ _ _ Hrun).
  rewrite <- (processLX200Command_sock _ _ _ _ Hrun).
  cbv zeta. fold response.
  destruct (isNoResponseCommand cmd).
  { exists w1. rewrite app_nil_r. repeat split. }
  destruct (0 <? WString.length response)%Z.
  - eexists. split; [reflexivity|]. repeat split.
  - exists w1. rewrite app_nil_r. repeat split.
Qed.

Lemma processLX200Command_returns (cmd : Str) (w : World) :
  exists r w1, processLX200Command cmd w = Some (r, w1)
               /\ uart_tx w1 = uart_tx w ++ forwarded cmd
               /\ sock_tx w1 = sock_tx w.
Proof.
  unfold forwarded. destruct (answered_locally cmd) eqn:Hloc.
  - exists (checkForAppSpecificCmds cmd), w.
    rewrite (processLX200Command_local cmd w Hloc), app_nil_r. now repeat split.
  - destruct (processLX200Command_forwards cmd w Hloc)
      as (r & w1 & Hrun & Htx & Hsock & _).
    now exists r, w1.
Qed.

(** Handling a command always returns. *)
Lemma handleLX200Command_returns (cmd : Str) (w : World) :
  exists w', handleLX200Command cmd w = Some (tt, w')
             /\ uart_tx w' = uart_tx w ++ forwarded cmd.
Proof.
  destruct (processLX200Command_returns cmd w) as (r & w1 & Hrun & Htx & _).
  destruct (handleLX200Command_relays cmd r) as (out & Hout).
  destruct (Hout _ _ Hrun) as (w' & Hw' & _ & Hu & _).
  exists w'. split; [exact Hw'|congruence].
Qed.

(** Serving a client always returns, and what reaches the Teensy is what the
    framed commands put there, in order. *)
Lemma serve_returns (bytes : list ascii) : forall k w,
  exists k' w', serve bytes k w = Some (k', w')
                /\ uart_tx w'
                   = uart_tx w ++ flat_map forwarded (framed bytes k).
Proof.
  induction bytes as [|c rest IH]; intros k w.
  - exists k, w. simpl. now rewrite app_nil_r.
  - simpl. unfold handleLX200Byte. run_unfold.
    destruct (frameByte c k) as [k1 [| |cmd]].
    + destruct (IH k1 (client_write "A" w)) as (k' & w' & Hrun & Htx).
      now exists k', w'.
    + apply IH.
    + destruct (handleLX200Command_returns cmd w) as (w1 & -> & Htx1).
      destruct (IH k1 w1) as (k' & w' & Hrun & Htx).
      exists k', w'. split; [exact Hrun|].
      rewrite Htx, Htx1. simpl. now rewrite app_assoc.
Qed.

(** Dispatching a command in two worlds whose serial links are in the same
    condition: the same bytes go to the client and to the Teensy, and the
    links are again in the same condition afterwards. *)
Lemma handleLX200Command_same_link (cmd : Str) (w v : World) :
  same_link w v ->
  exists w' v' to_client to_teensy,
    handleLX200Command cmd w = Some (tt, w')
    /\ handleLX200Command cmd v = Some (tt, v')
    /\ sock_tx w' = sock_tx w ++ to_client
    /\ sock_tx v' = sock_tx v ++ to_client
    /\ uart_tx w' = uart_tx w ++ to_teensy
    /\ uart_tx v' = uart_tx v ++ to_teensy
    /\ same_link w' v'.
Proof.
  intros Hl.
  destruct (processLX200Command_returns cmd w) as (r & w1 & Hw & Hwtx & _).
  destruct (processLX200Command_same_link _ _ _ _ _ Hl Hw) as (v1 & Hv & Hl1).
  destruct (processLX200Command_returns cmd v) as (r' & v1' & Hv' & Hvtx & _).
  rewrite Hv in Hv'. injection Hv' as <- <-.
  destruct (handleLX200Command_relays cmd r) as (out & Hout).
  destruct (Hout _ _ Hw) as (w' & Hw' & Hws & Hwu & [Hwr Hww]).
  destruct (Hout _ _ Hv) as (v' & Hv' & Hvs & Hvu & [Hvr Hvw]).
  exists w', v', out, (forwarded cmd).
  repeat split; try congruence.
  - destruct Hl1. congruence.
  - destruct Hl1. congruence.
Qed.

(** C5.  For a forwarded command: when the receive buffer is empty as the
    reader starts and nothing arrives during the next 2300 ms, the reader
    returns the empty string and the client is sent nothing.  Nothing is left
    behind: the receive buffer is empty, and dispatching the command again
    from there does what a bridge with any other past (clock, bytes written
    so far) does on the same serial link: the same bytes to the client, the
    same bytes to the Teensy. *)
Theorem first_byte_timeout_leaves_no_trace (cmd : Str) (w w1 : World) :
  ~ In cmd local_answer_set ->
  handshakeTeensy w = Some (tt, w1) ->
  uart_rx w1 = [] ->
  heard (wire w1) 2300 = [] ->
  exists w2,
    readTeensyResponse (serial_write (truncCmd cmd) w1) = Some (lit "", w2)
    /\ handleLX200Command cmd w = Some (tt, w2)
    /\ sock_tx w2 = sock_tx w
    /\ uart_rx w2 = []
    /\ forall v, same_link w2 v ->
         exists w3 v' to_client to_teensy,
           handleLX200Command cmd w2 = Some (tt, w3)
           /\ handleLX200Command cmd v = Some (tt, v')
           /\ sock_tx w3 = sock_tx w2 ++ to_client
           /\ sock_tx v' = sock_tx v ++ to_client
           /\ uart_tx w3 = uart_tx w2 ++ to_teensy
           /\ uart_tx v' = uart_tx v ++ to_teensy
           /\ same_link w3 v'.
Proof.
  intros Hloc Hhs Hrx Hquiet. apply not_answered_locally in Hloc.
  destruct (readTeensyResponse_silence (serial_write (truncCmd cmd) w1)
              Hrx Hquiet) as (w2 & Hread & _ & Hrx2 & [_ Hsock2]).
  assert (Hrun : processLX200Command cmd w = Some (lit "", w2)).
  { unfold processLX200Command. unfold answered_locally in Hloc. rewrite Hloc.
    run_unfold. now rewrite Hhs. }
  exists w2. split; [exact Hread|]. split; [|split; [|split; [exact Hrx2|]]].
  - rewrite (handleLX200Command_after _ _ _ _ Hrun). cbv zeta. simpl.
    now destruct (isNoResponseCommand cmd).
  - rewrite Hsock2. simpl.
    destruct (handshakeTeensy_writes w) as (w1' & Hhs' & _ & Hs).
    rewrite Hhs in Hhs'. now injection Hhs' as <-.
  - intros v Hl. now apply handleLX200Command_same_link.
Qed.

Lemma first_byte_timeout_leaves_no_trace_witness :
  exists w1 w2,
    handshakeTeensy teensy_silent = Some (tt, w1)
    /\ readTeensyResponse (serial_write (truncCmd ":GR#") w1)
       = Some (lit "", w2)
    /\ handleLX200Command ":GR#" teensy_silent = Some (tt, w2)
    /\ sock_tx w2 = sock_tx teensy_silent
    /\ uart_rx w2 = [].
Proof.
  eexists.
  assert (Hhs : handshakeTeensy teensy_silent = Some (tt, _))
    by (vm_compute; reflexivity).
  assert (Hloc : ~ In (lit ":GR#") local_answer_set)
    by (simpl; intros [H|[H|[H|[H|[]]]]]; discriminate H).
  destruct (first_byte_timeout_leaves_no_trace (lit ":GR#") teensy_silent _
              Hloc Hhs eq_refl eq_refl)
    as (w2 & Hread & Hrun & Hsock & Hrx & _).
  exists w2. exact (conj Hhs (conj Hread (conj Hrun (conj Hsock Hrx)))).
Defined.


(* ================================================================== *)
(** * Further properties: framing and the probe byte *)

Lemma framed_app (a b : list ascii) : forall k,
  framed (a ++ b) k = framed a k ++ framed b (framing_after a k).
Proof.
  induction a as [|c a IH]; intros k; [reflexivity|].
  simpl. destruct (frameByte c k) as [k' [| |cmd]]; simpl; now rewrite IH.
Qed.

Lemma framing_after_app (a b : list ascii) : forall k,
  framing_after (a ++ b) k = framing_after b (framing_after a k).
Proof. induction a as [|c a IH]; intros k; [reflexivity|]. apply IH. Qed.

Lemma serve_framing_after (bytes : list ascii) : forall k w k' w',
  serve bytes k w = Some (k', w') -> k' = framing_after bytes k.
Proof.
  induction bytes as [|c rest IH]; intros k w k' w' H; simpl in H.
  - unfold ret in H. now injection H as <- _.
  - unfold bind, handleLX200Byte in H. simpl.
    destruct (frameByte c k) as [k1 [| |cmd]]; run_unfold; simpl.
    + eapply IH; eauto.
    + eapply IH; eauto.
    + destruct (handleLX200Command cmd w) as [[[] w1]|]; [|discriminate].
      eapply IH; eauto.
Qed.

Lemma filter_no_probe (s : list ascii) :
  ~ In "006"%char s -> filter (fun c => negb (is_probe c)) s = s.
Proof.
  induction s as [|c s IH]; intros H; [reflexivity|]. simpl in *.
  unfold is_probe at 1. destruct (Ascii.eqb_spec c "006") as [->|_]; [tauto|].
  simpl. f_equal. apply IH. tauto.
Qed.

(** X1.  A client that sends well-framed commands without probe bytes in
    them, with any garbage that holds no ':' before each, gets exactly these
    commands dispatched, in order. *)
Theorem framing_round_trip (session : list (list ascii * Str)) (buf : Str) :
  Forall (fun jc => ~ In ":"%char (fst jc) /\ well_framed (snd jc)
                    /\ ~ In "006"%char (snd jc)) session ->
  framed (transmit session) (mkConn false buf) = map snd session.
Proof.
  revert buf. induction session as [|[junk cmd] session IH]; intros buf H;
    [reflexivity|].
  apply Forall_cons_iff in H as [(Hj & (p & Hcmd & Hp) & Hpr) Hrest].
  simpl in Hj, Hcmd, Hpr. subst cmd.
  unfold transmit in *. simpl. rewrite <- app_assoc.
  rewrite framed_skips_junk by exact Hj. simpl.
  change (framed (":"%char :: (p ++ ["#"%char])
                  ++ flat_map (fun jc => fst jc ++ snd jc) session)
            (mkConn false ""))
    with (framed ((p ++ ["#"%char])
                  ++ flat_map (fun jc => fst jc ++ snd jc) session)
            (mkConn true ":")).
  rewrite <- app_assoc. simpl. rewrite framed_receiving by exact Hp.
  rewrite filter_no_probe.
  - simpl. f_equal. apply (IH ""). exact Hrest.
  - intros Hin. apply Hpr. right. rewrite in_app_iff. now left.
Qed.

Lemma framing_round_trip_witness :
  framed (transmit [(lit "#", lit ":GR#"); (lit "", lit ":Sr12:30:00#")])
         (mkConn false "")
  = map snd [(lit "#", lit ":GR#"); (lit "", lit ":Sr12:30:00#")].
Proof.
  apply framing_round_trip.
  repeat constructor; simpl;
    try (intros H; repeat (destruct H as [H|H]; [discriminate H|]); exact H).
  - exists (lit "GR"). split; [reflexivity|]. simpl.
    intros H; repeat (destruct H as [H|H]; [discriminate H|]); exact H.
  - exists (lit "Sr12:30:00"). split; [reflexivity|]. simpl.
    intros H; repeat (destruct H as [H|H]; [discriminate H|]); exact H.
Defined.

Lemma frameByte_filter_probe (bytes : list ascii) : forall k,
  framed (filter (fun c => negb (is_probe c)) bytes) k = framed bytes k
  /\ framing_after (filter (fun c => negb (is_probe c)) bytes) k
     = framing_after bytes k.
Proof.
  induction bytes as [|c rest IH]; intros k; [now split|].
  simpl. destruct (is_probe c) eqn:Hc; simpl.
  - unfold is_probe in Hc. apply Ascii.eqb_eq in Hc. subst c.
    rewrite probe_leaves_framing. apply IH.
  - destruct (frameByte c k) as [k' [| |cmd]]; simpl;
      destruct (IH k') as [H1 H2]; split; congruence.
Qed.

(** X2.  Probe bytes are invisible to the framing, wherever they fall, in
    the middle of a command too: with or without them the same commands are
    dispatched, the same bytes reach the Teensy and the framing ends in the
    same state. *)
Theorem probes_are_transparent (bytes : list ascii) (k : Conn) (w : World) :
  let plain := filter (fun c => negb (is_probe c)) bytes in
  framed plain k = framed bytes k
  /\ exists k' w1 w2,
       serve bytes k w = Some (k', w1)
       /\ serve plain k w = Some (k', w2)
       /\ uart_tx w1 = uart_tx w2.
Proof.
  cbv zeta. destruct (frameByte_filter_probe bytes k) as [Hf Ha].
  split; [exact Hf|].
  destruct (serve_returns bytes k w) as (k1 & w1 & Hs1 & Htx1).
  destruct (serve_returns (filter (fun c => negb (is_probe c)) bytes) k w)
    as (k2 & w2 & Hs2 & Htx2).
  pose proof (serve_framing_after _ _ _ _ _ Hs1) as ->.
  pose proof (serve_framing_after _ _ _ _ _ Hs2) as ->.
  rewrite Ha in Hs2. exists (framing_after bytes k), w1, w2.
  split; [exact Hs1|]. split; [exact Hs2|]. congruence.
Qed.

(** X3.  In any framing state, in the middle of a command too, each probe
    byte is answered by one 'A' and by nothing else: the framing state, the
    serial link and the clock stay as they are. *)
Theorem probes_are_answered (n : nat) (k : Conn) (w : World) :
  serve (repeat "006"%char n) k w
  = Some (k, mkWorld (now w) (uart_rx w) (wire w) (uart_tx w)
                     (sock_tx w ++ repeat "A"%char n)).
Proof.
  revert w. induction n as [|n IH]; intros w; simpl.
  - unfold ret. rewrite app_nil_r. now destruct w.
  - unfold bind, handleLX200Byte. simpl. run_unfold. rewrite IH. simpl.
    now rewrite <- app_assoc.
Qed.

(** X4.  Bytes that arrive between commands are not dropped at once: as long
    as no ':' comes, each of them (the probe apart) is appended to the
    accumulator, which grows without bound; nothing is sent to either side. *)
Theorem garbage_piles_up (junk : list ascii) (buf : Str) (w : World) :
  ~ In ":"%char junk -> ~ In "006"%char junk ->
  serve junk (mkConn false buf) w = Some (mkConn false (buf ++ junk), w).
Proof.
  revert buf. induction junk as [|c junk IH]; intros buf Hc Hp; simpl.
  - unfold ret. now rewrite app_nil_r.
  - simpl in Hc, Hp. unfold bind, handleLX200Byte, frameByte. simpl.
    destruct (Ascii.eqb_spec c "006") as [->|_]; [tauto|].
    destruct (Ascii.eqb_spec c ":") as [->|_]; [tauto|].
    rewrite andb_false_r. unfold ret. rewrite IH by tauto.
    now rewrite <- app_assoc.
Qed.

Lemma garbage_piles_up_witness :
  serve (lit "#junk#") (mkConn false ":GR#") teensy_silent
  = Some (mkConn false (lit ":GR#" ++ lit "#junk#"), teensy_silent).
Proof.
  apply garbage_piles_up; simpl;
    intros H; repeat (destruct H as [H|H]; [discriminate H|]); exact H.
Defined.

(* ================================================================== *)
(** * Further properties: how long things take *)

Section Duration.
Context {S R : Type}.
Variable body : S -> World -> Flow S R.
Variable timeout : Z.
(** How long the body may take when it leaves. *)
Variable d : Z.

(** A loop that starts now ends on its time test exactly [timeout] later, or
    is left earlier than that. *)
Lemma while_millis_duration :
  instant body -> (0 <= timeout < 2 ^ 32)%Z ->
  (forall s v r v', body s v = Leave r v' ->
     (now v <= now v' <= now v + d)%Z) ->
  forall s w e w',
    while_millis timeout (millis w) body s w = Some (e, w') ->
    match e with
    | Expired _ => now w' = (now w + timeout)%Z
    | Left _ => (now w <= now w' <= now w + (timeout - 1) + d)%Z
    end.
Proof.
  intros Hinst Hto Hleave s w e w' Hrun.
  refine (while_millis_rule body timeout (millis w)
            (fun _ v => now v = (now w + sub32 (millis v) (millis w))%Z
                        /\ (sub32 (millis v) (millis w) <= timeout)%Z)
            (fun e v => match e with
                        | Expired _ => now v = (now w + timeout)%Z
                        | Left _ =>
                            (now w <= now v <= now w + (timeout - 1) + d)%Z
                        end) _ _ s w e w' _ Hrun).
  - intros s0 v [Hnow Hle] Hlt.
    pose proof (sub32_range (millis v) (millis w)) as Hr.
    destruct (body s0 v) as [s1 v1|r v1] eqn:Hb.
    + destruct (Hinst _ _ _ _ Hb) as [Hn Hw].
      assert (Hsame : sub32 (millis v1) (millis w) = sub32 (millis v) (millis w))
        by (rewrite !sub32_millis; now rewrite Hn).
      pose proof (ticked_range v1) as Ht.
      rewrite sub32_poll_exact by lia. rewrite now_poll, Hsame, Hn. lia.
    + specialize (Hleave _ _ _ _ Hb). lia.
  - intros s0 v [Hnow Hle] Hge. lia.
  - rewrite sub32_millis_self. lia.
Qed.

End Duration.

Lemma ack_body_leaves (u : unit) (v : World) (r : unit) (v' : World) :
  ack_body u v = Leave r v' -> (now v <= now v' <= now v + 3)%Z.
Proof.
  unfold ack_body. destruct (uart_rx v) as [|b rest]; [discriminate|].
  destruct (Ascii.eqb b "K"); [|discriminate].
  intros H. injection H as _ <-. unfold drain, delay. simpl.
  destruct (sleep (wire v) 3). simpl. lia.
Qed.

Lemma handshakeTeensy_duration (w w' : World) :
  handshakeTeensy w = Some (tt, w') -> (now w <= now w' <= now w + 502)%Z.
Proof.
  unfold handshakeTeensy. run_unfold.
  destruct (while_millis TEENSY_ACK_TIMEOUT (millis (serial_write "L" w))
              ack_body tt (serial_write "L" w)) as [[e v]|] eqn:Hrun;
    [|discriminate].
  intros H. injection H as <-.
  pose proof (while_millis_duration ack_body TEENSY_ACK_TIMEOUT 3
                ack_body_instant ltac:(unfold TEENSY_ACK_TIMEOUT; lia)
                ack_body_leaves tt _ _ _ Hrun) as Hd.
  unfold TEENSY_ACK_TIMEOUT in Hd. simpl in Hd. destruct e; lia.
Qed.

Lemma readTeensyResponse_duration (w w' : World) (r : Str) :
  readTeensyResponse w = Some (r, w') -> (now w <= now w' <= now w + 2650)%Z.
Proof.
  unfold readTeensyResponse. run_unfold.
  destruct (while_millis 2300 (millis w) first_byte_body tt w)
    as [[e1 w1]|] eqn:Hrun1; [|discriminate].
  assert (H1 : (now w <= now w1 <= now w + 2300)%Z).
  { pose proof (while_millis_duration first_byte_body 2300 0
                  first_byte_body_instant ltac:(lia)) as Hd.
    specialize (Hd (fun s v r v' => ltac:(
      unfold first_byte_body; destruct (available v); [|discriminate];
      intros H; injection H as _ <-; lia))).
    specialize (Hd tt _ _ _ Hrun1). destruct e1; lia. }
  destruct (available w1); cbn [negb].
  2:{ intros H. injection H as _ <-. lia. }
  destruct (while_millis 350 (millis w1) reply_body (lit "") w1)
    as [[e2 w2]|] eqn:Hrun2; [|discriminate].
  assert (H2 : (now w1 <= now w2 <= now w1 + 350)%Z).
  { pose proof (while_millis_duration reply_body 350 0
                  reply_body_instant ltac:(lia)) as Hd.
    specialize (Hd (fun s v r v' => ltac:(
      unfold reply_body;
      destruct (read_available s (uart_rx v)) as [[t rx] [|]];
        [|discriminate];
      intros H; injection H as _ <-; simpl; lia))).
    specialize (Hd (lit "") _ _ _ Hrun2). destruct e2; lia. }
  destruct e2; intros H; injection H as _ <-; lia.
Qed.

Lemma processLX200Command_duration (cmd r : Str) (w w' : World) :
  processLX200Command cmd w = Some (r, w') ->
  (now w <= now w' <= now w + 3152)%Z.
Proof.
  unfold processLX200Command.
  destruct (negb (WString.length (checkForAppSpecificCmds cmd) =? 0)%Z).
  - unfold ret. intros H. injection H as _ <-. lia.
  - run_unfold.
    destruct (handshakeTeensy w) as [[[] w1]|] eqn:Hhs; [|discriminate].
    intros Hrd. apply handshakeTeensy_duration in Hhs.
    apply readTeensyResponse_duration in Hrd. simpl in Hrd. lia.
Qed.

Lemma handleLX200Command_duration (cmd : Str) (w : World) :
  exists w',
    handleLX200Command cmd w = Some (tt, w')
    /\ uart_tx w' = uart_tx w ++ forwarded cmd
    /\ (now w <= now w' <= now w + 3152)%Z.
Proof.
  destruct (processLX200Command_returns cmd w) as (r & w1 & Hrun & Htx & _).
  destruct (handleLX200Command_relays cmd r) as (out & Hout).
  destruct (Hout _ _ Hrun) as (w' & Hw' & _ & Hu & _).
  pose proof (processLX200Command_duration _ _ _ _ Hrun) as Hd.
  assert (Hnow : now w' = now w1).
  { rewrite (handleLX200Command_after _ _ _ _ Hrun) in Hw'. cbv zeta in Hw'.
    destruct (isNoResponseCommand cmd);
      [unfold ret in Hw'; now injection Hw' as <-|].
    destruct (0 <? WString.length _)%Z;
      unfold act, ret in Hw'; now injection Hw' as <-. }
  exists w'. split; [exact Hw'|]. split; [congruence|lia].
Qed.

(** X5.  Handling a command always returns, after at most 3152 ms (502 for
    the handshake, 2300 for the first byte, 350 for the rest), whatever the
    Teensy does; so the idle test of the connection loop, 10 s after the
    last byte, is never made true by the command that byte completed. *)
Theorem command_blocks_briefly (cmd : Str) (w : World) :
  exists w',
    handleLX200Command cmd w = Some (tt, w')
    /\ (now w <= now w' <= now w + 3152)%Z
    /\ client_timed_out (millis w) w' = false.
Proof.
  destruct (handleLX200Command_duration cmd w) as (w' & Hw' & _ & Hd).
  exists w'. split; [exact Hw'|]. split; [lia|].
  unfold client_timed_out. apply Z.ltb_ge.
  rewrite sub32_millis. unfold millis.
  rewrite Zminus_mod_idemp_r. rewrite Z.mod_small; lia.
Qed.

(** X6.  Serving a client always returns.  What reaches the Teensy is, for
    each framed command in order, nothing when it is one of the local-answer
    table and otherwise 'L' and the bytes of the command, [:SG+06.0#] going
    out as [:SG+06#] and every other command as it came; and the whole takes
    at most 3152 ms for each framed command. *)
Theorem session_traffic_and_time (bytes : list ascii) (k : Conn) (w : World) :
  exists k' w',
    serve bytes k w = Some (k', w')
    /\ uart_tx w'
       = uart_tx w
         ++ flat_map
              (fun cmd =>
                 if existsb (equals cmd) local_answer_set then lit ""
                 else lit "L"
                      ++ (if cmd == ":SG+06.0#" then lit ":SG+06#" else cmd))
              (framed bytes k)
    /\ (now w <= now w'
        <= now w + 3152 * Z.of_nat (List.length (framed bytes k)))%Z.
Proof.
  revert k w. induction bytes as [|c rest IH]; intros k w.
  - exists k, w. simpl. rewrite app_nil_r. repeat split; lia.
  - simpl. unfold handleLX200Byte. run_unfold.
    destruct (frameByte c k) as [k1 [| |cmd]].
    + destruct (IH k1 (client_write "A" w)) as (k' & w' & Hrun & Htx & Ht).
      exists k', w'. now repeat split.
    + apply IH.
    + destruct (handleLX200Command_duration cmd w) as (w1 & -> & Htx1 & Hd).
      destruct (IH k1 w1) as (k' & w' & Hrun & Htx & Ht).
      exists k', w'. split; [exact Hrun|]. split.
      * rewrite Htx, Htx1. cbn [flat_map].
        now rewrite forwarded_cases, app_assoc.
      * change (now w <= now w'
                <= now w + 3152 * Z.of_nat
                                    (Datatypes.S
                                       (List.length (framed rest k1))))%Z.
        lia.
Qed.

(* ================================================================== *)
(** * Further properties: the serial link when the Teensy answers *)

Lemma ticks_cons (tick : bool) (bs : list ascii) (l : list Slot) :
  ticks ((tick, bs) :: l) = ((if tick then 1 else 0) + ticks l)%Z.
Proof. unfold ticks. simpl. destruct tick; simpl List.length; lia. Qed.

Lemma ticks_nonneg (l : list Slot) : (0 <= ticks l)%Z.
Proof. unfold ticks. lia. Qed.

Section Arrival.
Context {S R : Type}.
Variable body : S -> World -> Flow S R.
Variable timeout : Z.

(** With nothing to read the body just carries on. *)
Hypothesis body_idle : forall s w, uart_rx w = [] -> body s w = Next s w.

(** Waiting through silent poll intervals until bytes arrive. *)
Lemma while_millis_fuel_arrival (quiet : list Slot) :
  forall fuel s w start tick data rest,
    Forall (fun sl => snd sl = []) quiet ->
    uart_rx w = [] ->
    wire w = quiet ++ (tick, data) :: rest ->
    (timeout < 2 ^ 32)%Z ->
    (sub32 (millis w) start + ticks quiet < timeout)%Z ->
    let v := mkWorld (now w + ticks quiet + (if tick then 1 else 0)) data rest
                     (uart_tx w) (sock_tx w) in
    while_millis_fuel (List.length quiet + 1 + fuel) timeout start body s w
    = while_millis_fuel fuel timeout start body s v
    /\ sub32 (millis v) start
       = (sub32 (millis w) start + ticks quiet + (if tick then 1 else 0))%Z.
Proof.
  induction quiet as [|[tk bs] quiet IH];
    intros fuel s w start tick data rest Hq Hrx Hw Hto He v.
  - simpl in Hw. change (ticks []) with 0%Z in *.
    assert (Hpoll : poll w = v).
    { unfold poll, v. rewrite Hw, Hrx. simpl. f_equal. lia. }
    split.
    + simpl. destruct (Z.ltb_spec (sub32 (millis w) start) timeout); [|lia].
      now rewrite (body_idle s w Hrx), Hpoll.
    + rewrite <- Hpoll. rewrite sub32_poll_exact by lia.
      unfold ticked. rewrite Hw. lia.
  - apply Forall_cons_iff in Hq as [Hbs Hq]. simpl in Hbs. subst bs.
    rewrite ticks_cons in He. pose proof (ticks_nonneg quiet) as Hn.
    assert (Htk : (0 <= (if tk then 1 else 0) <= 1)%Z) by (destruct tk; lia).
    assert (Hp : poll w = mkWorld (now w + (if tk then 1 else 0)) []
                           (quiet ++ (tick, data) :: rest)
                           (uart_tx w) (sock_tx w)).
    { unfold poll. rewrite Hw, Hrx. reflexivity. }
    assert (Hep : sub32 (millis (poll w)) start
                  = (sub32 (millis w) start + (if tk then 1 else 0))%Z).
    { rewrite sub32_poll_exact by lia. unfold ticked. now rewrite Hw. }
    destruct (IH fuel s (poll w) start tick data rest Hq) as [Hrun Hel].
    + now rewrite Hp.
    + now rewrite Hp.
    + exact Hto.
    + rewrite Hep. lia.
    + assert (Hv : mkWorld (now (poll w) + ticks quiet
                            + (if tick then 1 else 0)) data rest
                           (uart_tx (poll w)) (sock_tx (poll w)) = v).
      { unfold v. rewrite Hp, ticks_cons. simpl. f_equal. lia. }
      rewrite Hv in Hrun, Hel. split.
      * simpl.
        destruct (Z.ltb_spec (sub32 (millis w) start) timeout); [|lia].
        rewrite (body_idle s w Hrx). exact Hrun.
      * rewrite Hel, Hep, ticks_cons. lia.
Qed.

End Arrival.

Lemma ack_body_idle (u : unit) (w : World) :
  uart_rx w = [] -> ack_body u w = Next u w.
Proof. intros H. unfold ack_body. rewrite H. now destruct u. Qed.

Lemma first_byte_body_idle (u : unit) (w : World) :
  uart_rx w = [] -> first_byte_body u w = Next u w.
Proof.
  intros H. unfold first_byte_body, available. rewrite H. now destruct u.
Qed.

Lemma handshakeTeensy_on_ack (w : World) (quiet : list Slot) (tick : bool)
    (more : list ascii) (rest : list Slot) :
  uart_rx w = [] ->
  wire w = quiet ++ (tick, "K"%char :: more) :: rest ->
  Forall (fun sl => snd sl = []) quiet ->
  (ticks quiet + (if tick then 1 else 0) < 500)%Z ->
  handshakeTeensy w
  = Some (tt, mkWorld (now w + ticks quiet + (if tick then 1 else 0) + 3)
                      [] (snd (sleep rest 3))
                      (uart_tx w ++ lit "L") (sock_tx w)).
Proof.
  intros Hrx Hw Hq Ht.
  unfold handshakeTeensy. run_unfold. unfold while_millis.
  set (w1 := serial_write "L" w).
  assert (Htk : (0 <= (if tick then 1 else 0) <= 1)%Z) by (destruct tick; lia).
  change (wire w1) with (wire w). rewrite Hw at 1.
  replace (Datatypes.S (List.length (quiet ++ (tick, "K"%char :: more) :: rest)
                        + Z.to_nat TEENSY_ACK_TIMEOUT))
    with (List.length quiet + 1
          + Datatypes.S (List.length rest + Z.to_nat TEENSY_ACK_TIMEOUT))%nat
    by (rewrite length_app; simpl; lia).
  destruct (while_millis_fuel_arrival ack_body TEENSY_ACK_TIMEOUT
              ack_body_idle quiet
              (Datatypes.S (List.length rest + Z.to_nat TEENSY_ACK_TIMEOUT))
              tt w1 (millis w1) tick ("K"%char :: more) rest Hq Hrx Hw)
    as [Hrun Hel].
  { reflexivity. }
  { rewrite sub32_millis_self. unfold TEENSY_ACK_TIMEOUT. lia. }
  rewrite Hrun. cbn [while_millis_fuel].
  rewrite Hel, sub32_millis_self.
  destruct (Z.ltb_spec (0 + ticks quiet + (if tick then 1 else 0))
              TEENSY_ACK_TIMEOUT) as [_|Hge];
    [|unfold TEENSY_ACK_TIMEOUT in Hge; lia].
  unfold ack_body. simpl. unfold drain, delay. simpl.
  destruct (sleep rest 3) as [got rest']. reflexivity.
Qed.

(** X7.  The acknowledged handshake: when the link is silent until a 'K'
    arrives, less than 500 ms after the 'L', the wait ends 3 ms after the
    'K'; whatever came with the 'K' and during these 3 ms is thrown away,
    the receive buffer is empty, one 'L' was written. *)
Theorem handshake_acknowledged (w : World) (quiet : list Slot) (tick : bool)
    (more : list ascii) (rest : list Slot) :
  uart_rx w = [] ->
  wire w = quiet ++ (tick, "K"%char :: more) :: rest ->
  Forall (fun sl => snd sl = []) quiet ->
  (ticks quiet + (if tick then 1 else 0) < 500)%Z ->
  handshakeTeensy w
  = Some (tt, mkWorld (now w + ticks quiet + (if tick then 1 else 0) + 3)
                      [] (snd (sleep rest 3))
                      (uart_tx w ++ lit "L") (sock_tx w)).
Proof. exact (handshakeTeensy_on_ack w quiet tick more rest). Qed.

Lemma handshake_acknowledged_witness :
  handshakeTeensy (teensy_answers "1#")
  = Some (tt, mkWorld (now (teensy_answers "1#") + ticks [] + 0 + 3) []
                      (snd (sleep [(true, []); (true, []); (true, []);
                                   (false, lit "1#")] 3))
                      (uart_tx (teensy_answers "1#") ++ lit "L")
                      (sock_tx (teensy_answers "1#"))).
Proof.
  apply (handshake_acknowledged (teensy_answers "1#") [] false []
           [(true, []); (true, []); (true, []); (false, lit "1#")]).
  - reflexivity.
  - reflexivity.
  - constructor.
  - reflexivity.
Defined.

(** ** The reader *)

Lemma pending_poll (w : World) : pending (poll w) = pending w.
Proof.
  unfold pending, poll. destruct (wire w) as [|[tick bs] rest]; simpl.
  - reflexivity.
  - now rewrite <- app_assoc.
Qed.

Lemma read_available_keeps (rx : list ascii) : forall t t' rx' found,
  read_available t rx = (t', rx', found) ->
  t ++ filter (fun c => negb (is_junk c)) rx
  = t' ++ filter (fun c => negb (is_junk c)) rx'.
Proof.
  induction rx as [|rc rx IH]; intros t t' rx' found H; simpl in H.
  - now injection H as <- <- _.
  - simpl. destruct (is_junk rc); simpl; [now apply IH with found|].
    destruct (Ascii.eqb rc "#").
    + injection H as <- <- _. now rewrite <- app_assoc.
    + apply IH in H. rewrite <- H. now rewrite <- app_assoc.
Qed.

Lemma read_available_ready (body more : list ascii) : forall t,
  ~ In "#"%char body ->
  read_available t (body ++ "#"%char :: more)
  = (t ++ filter (fun c => negb (is_junk c)) body ++ ["#"%char], more, true).
Proof.
  induction body as [|c body IH]; intros t Hb; simpl.
  - reflexivity.
  - simpl in Hb. destruct (is_junk c); simpl; [apply IH; tauto|].
    destruct (Ascii.eqb_spec c "#") as [->|_]; [tauto|].
    rewrite IH by tauto. now rewrite <- app_assoc.
Qed.

Lemma readTeensyResponse_keeps (w : World) :
  exists reply w',
    readTeensyResponse w = Some (reply, w')
    /\ filter (fun c => negb (is_junk c)) (pending w)
       = reply ++ filter (fun c => negb (is_junk c)) (pending w').
Proof.
  destruct (readTeensyResponse_returns w) as (r & w' & Hrun & _).
  exists r, w'. split; [exact Hrun|].
  revert Hrun. unfold readTeensyResponse. run_unfold.
  destruct (while_millis 2300 (millis w) first_byte_body tt w)
    as [[e1 w1]|] eqn:Hrun1; [|discriminate].
  assert (H1 : pending w1 = pending w).
  { refine (while_millis_rule first_byte_body 2300 (millis w)
              (fun _ v => pending v = pending w)
              (fun _ v => pending v = pending w) _ _ tt w e1 w1 eq_refl
              Hrun1); [|trivial].
    intros u v Hv _. unfold first_byte_body.
    destruct (available v); [exact Hv|]. now rewrite pending_poll. }
  destruct (available w1); cbn [negb].
  { destruct (while_millis 350 (millis w1) reply_body (lit "") w1)
      as [[e2 w2]|] eqn:Hrun2; [|discriminate].
    assert (H2 : match e2 with
                 | Left t | Expired t =>
                     filter (fun c => negb (is_junk c)) (pending w1)
                     = t ++ filter (fun c => negb (is_junk c)) (pending w2)
                 end).
    { refine (while_millis_rule reply_body 350 (millis w1)
                (fun t v => filter (fun c => negb (is_junk c)) (pending w1)
                            = t ++ filter (fun c => negb (is_junk c))
                                          (pending v))
                (fun e v => match e with
                            | Left t | Expired t =>
                                filter (fun c => negb (is_junk c))
                                       (pending w1)
                                = t ++ filter (fun c => negb (is_junk c))
                                              (pending v)
                            end) _ _ (lit "") w1 e2 w2 eq_refl Hrun2);
        [|trivial].
      intros t v Hv _. unfold reply_body.
      destruct (read_available t (uart_rx v)) as [[t' rx] found] eqn:Hra.
      apply read_available_keeps in Hra.
      assert (Hk : filter (fun c => negb (is_junk c)) (pending w1)
                   = t' ++ filter (fun c => negb (is_junk c))
                                  (pending (set_rx rx v))).
      { rewrite Hv. unfold pending. simpl.
        rewrite !filter_app, !app_assoc. now rewrite Hra. }
      destruct found; [exact Hk|]. now rewrite pending_poll. }
    rewrite <- H1.
    destruct e2; intros H; injection H as <- <-; exact H2. }
  intros H. injection H as <- <-. now rewrite H1.
Qed.

Lemma readTeensyResponse_no_junk (w w' : World) (reply : Str) :
  readTeensyResponse w = Some (reply, w') ->
  Forall (fun c => c <> "K"%char /\ c <> "010"%char /\ c <> "013"%char) reply.
Proof.
  intros Hrun. destruct (readTeensyResponse_keeps w) as (r & v & Hrun' & Hk).
  rewrite Hrun in Hrun'. injection Hrun' as <- <-.
  apply Forall_forall. intros c Hc.
  assert (Hin : In c (filter (fun c => negb (is_junk c)) (pending w)))
    by (rewrite Hk, in_app_iff; now left).
  apply filter_In in Hin as [_ Hj]. unfold is_junk in Hj.
  apply negb_true_iff in Hj. apply orb_false_iff in Hj as [Hj H13].
  apply orb_false_iff in Hj as [HK H10].
  apply Ascii.eqb_neq in HK, H10, H13. now repeat split.
Qed.

(** X8.  The reader invents nothing and loses nothing but junk: what it
    returns, followed by what is still to be read with 'K', CR and LF taken
    out, is what was to be read before with 'K', CR and LF taken out.  So a
    reply never holds a 'K', a CR or an LF: a 'K' inside a reply is lost. *)
Theorem reader_keeps_the_stream (w : World) :
  exists reply w',
    readTeensyResponse w = Some (reply, w')
    /\ filter (fun c => negb (is_junk c)) (pending w)
       = reply ++ filter (fun c => negb (is_junk c)) (pending w')
    /\ Forall (fun c => c <> "K"%char /\ c <> "010"%char /\ c <> "013"%char)
              reply.
Proof.
  destruct (readTeensyResponse_keeps w) as (reply & w' & Hrun & Hk).
  exists reply, w'. split; [exact Hrun|]. split; [exact Hk|].
  exact (readTeensyResponse_no_junk w w' reply Hrun).
Qed.

Lemma reply_loop_ready (v : World) (body more : list ascii) :
  uart_rx v = body ++ "#"%char :: more ->
  ~ In "#"%char body ->
  while_millis 350 (millis v) reply_body (lit "") v
  = Some (Left (filter (fun c => negb (is_junk c)) body ++ ["#"%char]),
          set_rx more v).
Proof.
  intros Hrx Hb. unfold while_millis. cbn [while_millis_fuel].
  rewrite sub32_millis_self. cbn [Z.ltb Z.compare].
  unfold reply_body. rewrite Hrx, read_available_ready by exact Hb.
  reflexivity.
Qed.

(** X9.  A reply that is already in the receive buffer is returned at once:
    the bytes up to the first '#', junk taken out, and the '#'; what follows
    the '#' stays in the buffer, and no time goes by. *)
Theorem buffered_reply_is_returned (w : World) (body more : list ascii) :
  uart_rx w = body ++ "#"%char :: more ->
  ~ In "#"%char body ->
  readTeensyResponse w
  = Some (filter (fun c => negb (is_junk c)) body ++ ["#"%char],
          set_rx more w).
Proof.
  intros Hrx Hb. unfold readTeensyResponse. run_unfold.
  assert (Hav : available w = true)
    by (unfold available; rewrite Hrx; now destruct body).
  unfold while_millis at 1. cbn [while_millis_fuel].
  rewrite sub32_millis_self. cbn [Z.ltb Z.compare].
  unfold first_byte_body. rewrite Hav. cbv beta. rewrite Hav.
  cbn [negb]. now rewrite (reply_loop_ready w body more Hrx Hb).
Qed.

Lemma buffered_reply_is_returned_witness :
  readTeensyResponse (mkWorld 0 (lit "12:34:56#K") [] [] [])
  = Some (filter (fun c => negb (is_junk c)) (lit "12:34:56") ++ ["#"%char],
          set_rx (lit "K") (mkWorld 0 (lit "12:34:56#K") [] [] [])).
Proof.
  apply (buffered_reply_is_returned _ (lit "12:34:56") (lit "K"));
    [reflexivity|].
  simpl. intros H. repeat (destruct H as [H|H]; [discriminate H|]). exact H.
Defined.

Lemma readTeensyResponse_on_arrival (w : World) (quiet : list Slot)
    (tick : bool) (body more : list ascii) (rest : list Slot) :
  uart_rx w = [] ->
  wire w = quiet ++ (tick, body ++ "#"%char :: more) :: rest ->
  Forall (fun sl => snd sl = []) quiet ->
  (ticks quiet < 2300)%Z ->
  ~ In "#"%char body ->
  readTeensyResponse w
  = Some (filter (fun c => negb (is_junk c)) body ++ ["#"%char],
          mkWorld (now w + ticks quiet + (if tick then 1 else 0)) more rest
                  (uart_tx w) (sock_tx w)).
Proof.
  intros Hrx Hw Hq Ht Hb.
  unfold readTeensyResponse. run_unfold. unfold while_millis at 1.
  rewrite Hw at 1.
  replace (Datatypes.S (List.length
                          (quiet ++ (tick, body ++ "#"%char :: more) :: rest)
                        + Z.to_nat 2300))
    with (List.length quiet + 1
          + Datatypes.S (List.length rest + Z.to_nat 2300))%nat
    by (rewrite length_app; simpl; lia).
  destruct (while_millis_fuel_arrival first_byte_body 2300
              first_byte_body_idle quiet
              (Datatypes.S (List.length rest + Z.to_nat 2300))
              tt w (millis w) tick (body ++ "#"%char :: more) rest Hq Hrx Hw)
    as [Hrun _].
  { reflexivity. }
  { rewrite sub32_millis_self. lia. }
  rewrite Hrun.
  set (v := mkWorld (now w + ticks quiet + (if tick then 1 else 0))
                    (body ++ "#"%char :: more) rest (uart_tx w) (sock_tx w)).
  assert (Hav : available v = true)
    by (unfold available; simpl; now destruct body).
  cbn [while_millis_fuel]. unfold first_byte_body. rewrite Hav.
  destruct (sub32 (millis v) (millis w) <? 2300)%Z;
    cbv beta; rewrite Hav; cbn [negb];
    now rewrite (reply_loop_ready v body more eq_refl Hb).
Qed.

(** X10.  A reply that arrives in one piece, after any silence shorter than
    the 2300 ms of the first-byte timeout, is returned as soon as it is
    there: the bytes up to the first '#', junk taken out, and the '#'; what
    came after the '#' stays in the buffer. *)
Theorem arriving_reply_is_returned (w : World) (quiet : list Slot)
    (tick : bool) (body more : list ascii) (rest : list Slot) :
  uart_rx w = [] ->
  wire w = quiet ++ (tick, body ++ "#"%char :: more) :: rest ->
  Forall (fun sl => snd sl = []) quiet ->
  (ticks quiet < 2300)%Z ->
  ~ In "#"%char body ->
  readTeensyResponse w
  = Some (filter (fun c => negb (is_junk c)) body ++ ["#"%char],
          mkWorld (now w + ticks quiet + (if tick then 1 else 0)) more rest
                  (uart_tx w) (sock_tx w)).
Proof. exact (readTeensyResponse_on_arrival w quiet tick body more rest). Qed.

Lemma arriving_reply_is_returned_witness :
  readTeensyResponse
    (mkWorld 0 [] [(true, []); (false, []); (true, lit "0#junk")] [] [])
  = Some (filter (fun c => negb (is_junk c)) (lit "0") ++ ["#"%char],
          mkWorld (0 + ticks [(true, []); (false, [])] + 1) (lit "junk") []
                  [] []).
Proof.
  apply (arriving_reply_is_returned
           (mkWorld 0 [] [(true, []); (false, []); (true, lit "0#junk")] [] [])
           [(true, []); (false, [])] true (lit "0") (lit "junk") []).
  - reflexivity.
  - reflexivity.
  - repeat constructor.
  - reflexivity.
  - simpl. intros [H|[]]. discriminate H.
Defined.

(** ** From the client to the Teensy and back *)

(** The path of an ordinary command when the Teensy acknowledges and
    answers in time. *)
Lemma handleLX200Command_on_reply (cmd : Str) (w : World)
    (q1 : list Slot) (t1 : bool) (noise : list ascii) (rest1 : list Slot)
    (q2 : list Slot) (t2 : bool) (body more : list ascii)
    (rest2 : list Slot) :
  ~ In cmd local_answer_set -> ~ In cmd no_response_set ->
  startsWith cmd ":SC" = false -> cmd <> lit ":Q#" ->
  uart_rx w = [] ->
  wire w = q1 ++ (t1, "K"%char :: noise) :: rest1 ->
  Forall (fun sl => snd sl = []) q1 ->
  (ticks q1 + (if t1 then 1 else 0) < 500)%Z ->
  snd (sleep rest1 3) = q2 ++ (t2, body ++ "#"%char :: more) :: rest2 ->
  Forall (fun sl => snd sl = []) q2 ->
  (ticks q2 < 2300)%Z ->
  ~ In "#"%char body ->
  let reply := filter (fun c => negb (is_junk c)) body ++ ["#"%char] in
  handleLX200Command cmd w
  = Some (tt, mkWorld (now w + ticks q1 + (if t1 then 1 else 0) + 3
                       + ticks q2 + (if t2 then 1 else 0))
                      more rest2
                      (uart_tx w ++ lit "L" ++ truncCmd cmd)
                      (sock_tx w
                       ++ (if (reply == "1#") || (reply == "0#")
                           then substring2 reply 0 1 else reply))).
Proof.
  intros Hloc Hnr Hsc Hq Hrx Hw Hq1 Ht1 Hsl Hq2 Ht2 Hb reply.
  apply not_answered_locally in Hloc. apply equals_neq in Hq.
  assert (Hnr' : isNoResponseCommand cmd = false).
  { destruct (isNoResponseCommand cmd) eqn:E; [|reflexivity].
    now apply isNoResponseCommand_set in E. }
  assert (Hrun : processLX200Command cmd w
                 = Some (reply,
                         mkWorld (now w + ticks q1 + (if t1 then 1 else 0) + 3
                                  + ticks q2 + (if t2 then 1 else 0))
                                 more rest2
                                 (uart_tx w ++ lit "L" ++ truncCmd cmd)
                                 (sock_tx w))).
  { unfold processLX200Command. unfold answered_locally in Hloc.
    rewrite Hloc. run_unfold.
    rewrite (handshakeTeensy_on_ack w q1 t1 noise rest1 Hrx Hw Hq1 Ht1).
    rewrite (readTeensyResponse_on_arrival
               (serial_write (truncCmd cmd)
                  (mkWorld (now w + ticks q1 + (if t1 then 1 else 0) + 3)
                           [] (snd (sleep rest1 3))
                           (uart_tx w ++ lit "L") (sock_tx w)))
               q2 t2 body more rest2 eq_refl Hsl Hq2 Ht2 Hb).
    simpl. now rewrite <- app_assoc. }
  rewrite (handleLX200Command_after _ _ _ _ Hrun). cbv zeta.
  rewrite Hnr', Hsc, Hq, nonempty_length.
  assert (Hne : ((if (reply == "1#") || (reply == "0#")
                  then substring2 reply 0 1 else reply) == "") = false).
  { destruct ((reply == "1#") || (reply == "0#")) eqn:E.
    - apply orb_true_iff in E as [E|E]; apply equals_eq in E; now rewrite E.
    - apply equals_neq. unfold reply.
      now destruct (filter (fun c => negb (is_junk c)) body). }
  rewrite Hne. reflexivity.
Qed.

(** X11.  The whole path for an ordinary command (not answered locally, not
    of the no-response set, not [:SC...], not [:Q#]): the Teensy acknowledges
    the 'L' in time and then sends its reply in one piece before the
    first-byte timeout.  The Teensy gets 'L' and the bytes of the command
    ([:SG+06.0#] as [:SG+06#], any other command as it came); the client gets
    the reply up to its '#', junk taken out and, for [0#] and [1#], without
    the '#'; what the Teensy sent after the '#' waits in the receive buffer. *)
Theorem acknowledged_command_round_trip (cmd : Str) (w : World)
    (q1 : list Slot) (t1 : bool) (noise : list ascii) (rest1 : list Slot)
    (q2 : list Slot) (t2 : bool) (body more : list ascii)
    (rest2 : list Slot) :
  ~ In cmd local_answer_set -> ~ In cmd no_response_set ->
  startsWith cmd ":SC" = false -> cmd <> lit ":Q#" ->
  uart_rx w = [] ->
  wire w = q1 ++ (t1, "K"%char :: noise) :: rest1 ->
  Forall (fun sl => snd sl = []) q1 ->
  (ticks q1 + (if t1 then 1 else 0) < 500)%Z ->
  snd (sleep rest1 3) = q2 ++ (t2, body ++ "#"%char :: more) :: rest2 ->
  Forall (fun sl => snd sl = []) q2 ->
  (ticks q2 < 2300)%Z ->
  ~ In "#"%char body ->
  let reply := filter (fun c => negb (is_junk c)) body ++ ["#"%char] in
  handleLX200Command cmd w
  = Some (tt, mkWorld (now w + ticks q1 + (if t1 then 1 else 0) + 3
                       + ticks q2 + (if t2 then 1 else 0))
                      more rest2
                      (uart_tx w ++ lit "L"
                       ++ (if cmd == ":SG+06.0#" then lit ":SG+06#" else cmd))
                      (sock_tx w
                       ++ (if (reply == "1#") || (reply == "0#")
                           then substring2 reply 0 1 else reply))).
Proof.
  intros Hloc Hnr Hsc Hq Hrx Hw Hq1 Ht1 Hsl Hq2 Ht2 Hb.
  pose proof (handleLX200Command_on_reply cmd w q1 t1 noise rest1 q2 t2 body
                more rest2 Hloc Hnr Hsc Hq Hrx Hw Hq1 Ht1 Hsl Hq2 Ht2 Hb)
    as H.
  cbv zeta in H. rewrite (truncCmd_cases cmd) in H. exact H.
Qed.

Lemma acknowledged_command_round_trip_witness :
  handleLX200Command ":GR#" (teensy_answers "12:34:56#")
  = Some (tt, mkWorld (now (teensy_answers "12:34:56#") + ticks [] + 0 + 3
                       + ticks [] + 0)
                      [] []
                      (uart_tx (teensy_answers "12:34:56#") ++ lit "L"
                       ++ lit ":GR#")
                      (sock_tx (teensy_answers "12:34:56#")
                       ++ (if (filter (fun c => negb (is_junk c))
                                      (lit "12:34:56") ++ ["#"%char] == "1#")
                              || (filter (fun c => negb (is_junk c))
                                         (lit "12:34:56") ++ ["#"%char]
                                  == "0#")
                           then substring2
                                  (filter (fun c => negb (is_junk c))
                                          (lit "12:34:56") ++ ["#"%char]) 0 1
                           else filter (fun c => negb (is_junk c))
                                       (lit "12:34:56") ++ ["#"%char]))).
Proof.
  apply (acknowledged_command_round_trip (lit ":GR#")
           (teensy_answers "12:34:56#") [] false []
           [(true, []); (true, []); (true, []); (false, lit "12:34:56#")]
           [] false (lit "12:34:56") [] []).
  - simpl. intros [H|[H|[H|[H|[]]]]]; discriminate H.
  - simpl. intros H.
    repeat (destruct H as [H|H]; [discriminate H|]). exact H.
  - reflexivity.
  - discriminate.
  - reflexivity.
  - reflexivity.
  - constructor.
  - reflexivity.
  - reflexivity.
  - constructor.
  - reflexivity.
  - simpl. intros H.
    repeat (destruct H as [H|H]; [discriminate H|]). exact H.
Defined.

(* ================================================================== *)
(** * Further properties: local answers and the clock *)

(** X12.  A command of the local-answer table is answered by the bridge
    alone: the client gets the text of the table, which ends in its only
    '#'; nothing is written to the Teensy, nothing is read from it and no
    time goes by. *)
Theorem local_answer_is_immediate (cmd : Str) (w : World) :
  In cmd local_answer_set ->
  handleLX200Command cmd w
  = Some (tt, client_write (checkForAppSpecificCmds cmd) w)
  /\ well_framed (":"%char :: checkForAppSpecificCmds cmd).
Proof.
  intros Hin. unfold local_answer_set in Hin. simpl in Hin.
  destruct Hin as [<-|[<-|[<-|[<-|[]]]]]; (split; [reflexivity|]).
  - exists (lit "OnStepX.DDScopeX"). split; [reflexivity|]. simpl.
    intros H. repeat (destruct H as [H|H]; [discriminate H|]). exact H.
  - exists (lit "2.0"). split; [reflexivity|]. simpl.
    intros H. repeat (destruct H as [H|H]; [discriminate H|]). exact H.
  - exists (lit "May 2025"). split; [reflexivity|]. simpl.
    intros H. repeat (destruct H as [H|H]; [discriminate H|]). exact H.
  - exists (lit "08:02:00"). split; [reflexivity|]. simpl.
    intros H. repeat (destruct H as [H|H]; [discriminate H|]). exact H.
Qed.

Lemma local_answer_is_immediate_witness :
  handleLX200Command ":GVN#" teensy_silent
  = Some (tt, client_write (checkForAppSpecificCmds ":GVN#") teensy_silent)
  /\ well_framed (":"%char :: checkForAppSpecificCmds ":GVN#").
Proof.
  apply (local_answer_is_immediate (lit ":GVN#") teensy_silent).
  simpl. right. left. reflexivity.
Defined.

(** X13.  The value of the millisecond counter does not matter, the moment
    before it wraps round as any other: with the clock set to any [t] a
    command sends the same bytes to the client and to the Teensy and leaves
    the serial link in the same condition. *)
Theorem clock_value_is_immaterial (cmd : Str) (w : World) (t : Z) :
  exists w' v',
    handleLX200Command cmd w = Some (tt, w')
    /\ handleLX200Command cmd (at_time t w) = Some (tt, v')
    /\ sock_tx v' = sock_tx w'
    /\ uart_tx v' = uart_tx w'
    /\ same_link w' v'.
Proof.
  assert (Hl : same_link w (at_time t w)) by now split.
  destruct (handleLX200Command_same_link cmd w (at_time t w) Hl)
    as (w' & v' & out & fwd & Hw & Hv & Hws & Hvs & Hwu & Hvu & Hl').
  exists w', v'. repeat split; try assumption; try apply Hl'.
  - rewrite Hvs, Hws. reflexivity.
  - rewrite Hvu, Hwu. reflexivity.
Qed.

(* ================================================================== *)
(** * Further properties: the byte trace and the display *)

(** X14.  The label of a byte is one or two printable characters, whatever
    the byte; a printable byte is its own label, and only LF, CR and TAB
    have a label of two characters. *)
Theorem label_is_printable (c : ascii) :
  Forall (fun x => isprint x = true) (getAsciiLabel c)
  /\ (isprint c = true -> getAsciiLabel c = [c])
  /\ (List.length (getAsciiLabel c) = 2%nat
      <-> c = "010"%char \/ c = "013"%char \/ c = "009"%char)
  /\ (List.length (getAsciiLabel c) = 1%nat
      \/ List.length (getAsciiLabel c) = 2%nat).
Proof.
  assert (Hc : label_check c = true)
    by (destruct c as [[] [] [] [] [] [] [] []]; vm_compute; reflexivity).
  unfold label_check in Hc. cbv zeta in Hc.
  apply andb_true_iff in Hc as [Hc H4]. apply andb_true_iff in Hc as [Hc H3].
  apply andb_true_iff in Hc as [H1 H2].
  split; [|split; [|split]].
  - apply Forall_forall. now apply forallb_forall.
  - intros Hp. rewrite Hp in H2. simpl in H2. now apply equals_eq.
  - apply Bool.eqb_prop in H3. rewrite <- Nat.eqb_eq, H3.
    rewrite !orb_true_iff, !Ascii.eqb_eq. tauto.
  - apply orb_true_iff in H4 as [H|H]; apply Nat.eqb_eq in H; auto.
Qed.

Lemma int16_small (z : Z) : (- 2 ^ 15 <= z < 2 ^ 15)%Z -> int16 z = z.
Proof. intros H. unfold int16. rewrite Z.mod_small; lia. Qed.

(** X15.  [printCentered] prints the text up to its first NUL and, for [n]
    characters printed, puts the cursor at [64 - 3 n], as long as [6 n] fits
    an [int16_t] ([n <= 5461]); the row is [y] as an [int16_t], which is [y]
    itself from -32768 to 32767.  The text, 6 pixels a character, then has
    the same margin on both sides of the 128 pixels; it lies on the panel
    exactly when [n <= 21], and starts left of the panel when it is longer. *)
Theorem printCentered_centres (text : Str) (y : Z) :
  let n := WString.length (until_nul text) in
  (n <= 5461)%Z ->
  printCentered text y
  = [SetCursor (64 - 3 * n) (int16 y); Print (until_nul text)]
  /\ ((- 32768 <= y < 32768)%Z ->
      printCentered text y = [SetCursor (64 - 3 * n) y; Print (until_nul text)])
  /\ (128 - ((64 - 3 * n) + 6 * n) = 64 - 3 * n)%Z
  /\ ((0 <= 64 - 3 * n /\ (64 - 3 * n) + 6 * n <= 128)%Z <-> (n <= 21)%Z).
Proof.
  cbv zeta. intros Hn.
  assert (H0 : (0 <= WString.length (until_nul text))%Z)
    by (unfold WString.length; lia).
  assert (Hx : printCentered text y
               = [SetCursor (64 - 3 * WString.length (until_nul text))
                            (int16 y);
                  Print (until_nul text)]).
  { unfold printCentered. cbv zeta.
    rewrite (int16_small (WString.length (until_nul text))) by lia.
    rewrite (int16_small (WString.length (until_nul text) * 6)) by lia.
    replace (128 - WString.length (until_nul text) * 6)%Z
      with ((64 - 3 * WString.length (until_nul text)) * 2)%Z by lia.
    rewrite Z.quot_mul by lia. rewrite int16_small by lia. reflexivity. }
  split; [exact Hx|]. split; [|split; [lia|lia]].
  intros Hy. rewrite Hx. now rewrite (int16_small y) by lia.
Qed.

Lemma printCentered_centres_witness :
  printCentered " WiFi Display IP's" 8
  = [SetCursor (64 - 3 * WString.length (until_nul " WiFi Display IP's"))
               (int16 8);
     Print (until_nul " WiFi Display IP's")]
  /\ ((- 32768 <= 8 < 32768)%Z ->
      printCentered " WiFi Display IP's" 8
      = [SetCursor (64 - 3 * WString.length (until_nul " WiFi Display IP's")) 8;
         Print (until_nul " WiFi Display IP's")])
  /\ (128 - ((64 - 3 * WString.length (until_nul " WiFi Display IP's"))
             + 6 * WString.length (until_nul " WiFi Display IP's"))
      = 64 - 3 * WString.length (until_nul " WiFi Display IP's"))%Z
  /\ ((0 <= 64 - 3 * WString.length (until_nul " WiFi Display IP's")
       /\ (64 - 3 * WString.length (until_nul " WiFi Display IP's"))
          + 6 * WString.length (until_nul " WiFi Display IP's") <= 128)%Z
      <-> (WString.length (until_nul " WiFi Display IP's") <= 21)%Z).
Proof.
  apply (printCentered_centres (lit " WiFi Display IP's") 8).
  vm_compute. discriminate.
Defined.

(* ================================================================== *)
(** * Further properties: the address of the WiFi display *)

Lemma skip_space_suffix (s : Str) : exists pre, s = pre ++ skip_space s.
Proof.
  induction s as [|x s [pre IH]]; [now exists []|]. simpl.
  destruct (isspace x); [|now exists []].
  exists (x :: pre). simpl. now f_equal.
Qed.

Lemma skip_space_head (s : Str) (c : ascii) (r : Str) :
  skip_space s = c :: r -> isspace c = false.
Proof.
  induction s as [|x s IH]; simpl; [discriminate|].
  destruct (isspace x) eqn:Hx; [exact IH|]. intros H. now injection H as <- _.
Qed.

Lemma Forall_skip_space (P : ascii -> Prop) (s : Str) :
  Forall P s -> Forall P (skip_space s).
Proof.
  intros H. destruct (skip_space_suffix s) as [pre Hs].
  rewrite Hs in H. now apply Forall_app in H.
Qed.

Lemma Forall_trim (P : ascii -> Prop) (s : Str) :
  Forall P s -> Forall P (trim s).
Proof.
  intros H. unfold trim.
  apply Forall_rev, Forall_skip_space, Forall_rev, Forall_skip_space, H.
Qed.

Lemma trim_head (s : Str) (c : ascii) (r : Str) :
  trim s = c :: r -> isspace c = false.
Proof.
  unfold trim. intros H.
  destruct (skip_space_suffix (rev (skip_space s))) as [pre Hs].
  apply (f_equal (@rev ascii)) in Hs.
  rewrite rev_involutive, rev_app_distr, H in Hs. simpl in Hs.
  exact (skip_space_head s c _ Hs).
Qed.

Lemma trim_last (s : Str) (c : ascii) (pre : Str) :
  trim s = pre ++ [c] -> isspace c = false.
Proof.
  unfold trim. intros H. apply (f_equal (@rev ascii)) in H.
  rewrite rev_involutive, rev_app_distr in H. simpl in H.
  exact (skip_space_head _ c _ H).
Qed.

Lemma endsWith_hash (r : Str) :
  endsWith r "#" = true <-> exists pre, r = pre ++ ["#"%char].
Proof.
  unfold endsWith. change (List.length (lit "#")) with 1%nat. split.
  - destruct (List.length r <? 1)%nat; [discriminate|]. intros H.
    apply equals_eq in H. exists (firstn (List.length r - 1) r).
    rewrite <- (firstn_skipn (List.length r - 1) r) at 1.
    f_equal. exact H.
  - intros [pre ->]. rewrite length_app. simpl List.length.
    destruct (Nat.ltb_spec (List.length pre + 1) 1); [lia|].
    apply equals_eq.
    replace (List.length pre + 1 - 1)%nat with (List.length pre) by lia.
    rewrite skipn_app, skipn_all, Nat.sub_diag. reflexivity.
Qed.

Lemma remove_last_prefix (body : Str) :
  exists n, remove (body ++ ["#"%char])
                   (WString.length (body ++ ["#"%char]) - 1)
            = firstn n body
            /\ ((WString.length body < 2 ^ 32)%Z -> firstn n body = body).
Proof.
  unfold remove, to_unsigned, WString.length. rewrite length_app.
  simpl List.length.
  set (i := Z.to_nat ((Z.of_nat (List.length body + 1) - 1) mod 2 ^ 32)).
  assert (Hi : (i <= List.length body)%nat).
  { unfold i. pose proof (Z.mod_le (Z.of_nat (List.length body + 1) - 1)
                            (2 ^ 32)). lia. }
  exists i. destruct (Nat.leb_spec (List.length body + 1) i); [lia|]. split.
  - rewrite firstn_app.
    replace (i - List.length body)%nat with 0%nat by lia.
    simpl. now rewrite app_nil_r.
  - intros Hsmall. unfold i. rewrite Z.mod_small by lia.
    replace (Z.to_nat (Z.of_nat (List.length body + 1) - 1))
      with (List.length body) by lia.
    apply firstn_all.
Qed.

Lemma Forall_prefix {A} (P : A -> Prop) (n : nat) (l : list A) :
  Forall P l -> Forall P (firstn n l).
Proof.
  intros H. rewrite <- (firstn_skipn n l) in H. now apply Forall_app in H.
Qed.

Lemma processLX200Command_reads (cmd r : Str) (w w' : World) :
  answered_locally cmd = false ->
  processLX200Command cmd w = Some (r, w') ->
  exists w1, handshakeTeensy w = Some (tt, w1)
             /\ readTeensyResponse (serial_write (truncCmd cmd) w1)
                = Some (r, w').
Proof.
  unfold answered_locally, processLX200Command. intros ->. run_unfold.
  destruct (handshakeTeensy w) as [[[] w1]|]; [|discriminate].
  intros H. now exists w1.
Qed.

(** X16.  When the address of the WiFi display is asked for, the Teensy gets
    'L' and [:GI#], and the answer is taken exactly when it has a '#' with at
    least one byte before it.  What then goes to the display, on the row of
    "WD-STA:", holds no '#', no 'K', no CR, no LF and has no white space at
    either end (it is the answer without its '#', trimmed, for an answer
    shorter than 2^32 bytes); when the answer is not taken the display is
    left as it is.  Either way the attempt is dated at its start. *)
Theorem wifi_display_address_is_clean (localIP : IPAddress) (k : Sketch)
    (w : World) :
  wifiIpReceived k = false ->
  (5000 <= sub32 (millis w) (lastWifiIpCheck k))%Z ->
  exists reply k' w',
    processLX200Command ":GI#" w = Some (reply, w')
    /\ checkWifiDisplayIp localIP k w = Some (k', w')
    /\ uart_tx w' = uart_tx w ++ lit "L:GI#"
    /\ lastWifiIpCheck k' = millis w
    /\ (wifiIpReceived k' = true
        <-> exists body, reply = body ++ ["#"%char] /\ body <> [])
    /\ (wifiIpReceived k' = false -> oled k' = oled k)
    /\ (wifiIpReceived k' = true ->
        exists body msg,
          reply = body ++ ["#"%char]
          /\ oled k' = oled k ++ updateOledDisplay localIP LX200_AP_IP_ADDR msg
                                   WIFI_DISPLAY_AP_IP_ADDR
          /\ Forall (fun c => c <> "#"%char /\ c <> "K"%char
                              /\ c <> "010"%char /\ c <> "013"%char) msg
          /\ (forall c r, msg = c :: r -> isspace c = false)
          /\ (forall c pre, msg = pre ++ [c] -> isspace c = false)
          /\ ((WString.length body < 2 ^ 32)%Z -> msg = trim body)).
Proof.
  intros Hrec Hdue.
  destruct (processLX200Command_forwards ":GI#" w eq_refl)
    as (r & w' & Hrun & Htx & _ & Hends).
  destruct (processLX200Command_reads ":GI#" r w w' eq_refl Hrun)
    as (w1 & _ & Hread).
  pose proof (readTeensyResponse_no_junk _ _ _ Hread) as Hjunk.
  assert (Hshape : forall body, r = body ++ ["#"%char] ->
            Forall (fun c => c <> "#"%char /\ c <> "K"%char
                             /\ c <> "010"%char /\ c <> "013"%char) body).
  { intros body ->. apply Forall_app in Hjunk as [Hj _].
    destruct Hends as (b & Hb & [E|E]).
    - exfalso. apply Hb. rewrite <- E, in_app_iff. right. now left.
    - apply app_inj_tail in E as [-> _].
      rewrite Forall_forall in *. intros c Hc. split.
      + intros ->. exact (Hb Hc).
      + exact (Hj c Hc). }
  exists r. unfold checkWifiDisplayIp. run_unfold.
  rewrite Hrec. apply Z.leb_le in Hdue. rewrite Hdue. cbn [negb andb].
  rewrite Hrun.
  destruct ((1 <? WString.length r)%Z && endsWith r "#") eqn:Hacc.
  - apply andb_true_iff in Hacc as [Hlen Hend].
    apply endsWith_hash in Hend as [body ->]. apply Z.ltb_lt in Hlen.
    assert (Hne : body <> []).
    { intros ->. unfold WString.length in Hlen. simpl in Hlen. lia. }
    destruct (remove_last_prefix body) as (n & Hrem & Hfull).
    eexists. exists w'. split; [reflexivity|]. split; [reflexivity|].
    split; [exact Htx|]. split; [reflexivity|]. simpl. split; [|split].
    + split; [intros _; now exists body | reflexivity].
    + discriminate.
    + intros _. exists body. eexists. split; [reflexivity|].
      split; [reflexivity|]. split; [|split; [|split]].
      * apply Forall_trim. rewrite Hrem.
        apply Forall_prefix. now apply Hshape.
      * intros c r0. apply trim_head.
      * intros c pre. apply trim_last.
      * intros Hsmall. now rewrite Hrem, (Hfull Hsmall).
  - eexists. exists w'. split; [reflexivity|]. split; [reflexivity|].
    split; [exact Htx|]. split; [reflexivity|]. simpl.
    split; [|split; [reflexivity|discriminate]].
    split; [discriminate|]. intros (body & -> & Hne). exfalso.
    apply andb_false_iff in Hacc as [Hlen|Hend].
    + apply Z.ltb_ge in Hlen. unfold WString.length in Hlen.
      rewrite length_app in Hlen. simpl in Hlen.
      destruct body; [now apply Hne|]. simpl in Hlen. lia.
    + assert (H : endsWith (body ++ ["#"%char]) "#" = true)
        by (apply endsWith_hash; now exists body).
      congruence.
Qed.

Lemma wifi_display_address_is_clean_witness :
  exists reply k' w',
    processLX200Command ":GI#" (at_time 6000 (teensy_answers " 192.168.1.9#"))
    = Some (reply, w')
    /\ checkWifiDisplayIp (10, 0, 0, 7)%Z (mkSketch 0 false [])
         (at_time 6000 (teensy_answers " 192.168.1.9#")) = Some (k', w')
    /\ wifiIpReceived k' = true.
Proof.
  destruct (wifi_display_address_is_clean (10, 0, 0, 7)%Z (mkSketch 0 false [])
              (at_time 6000 (teensy_answers " 192.168.1.9#")) eq_refl)
    as (reply & k' & w' & Hrun & Hchk & _ & _ & Hacc & _).
  { vm_compute. discriminate. }
  exists reply, k', w'. split; [exact Hrun|]. split; [exact Hchk|].
  apply Hacc. exists (lit " 192.168.1.9"). split; [|discriminate].
  assert (E : processLX200Command ":GI#"
                (at_time 6000 (teensy_answers " 192.168.1.9#"))
              = Some (lit " 192.168.1.9" ++ ["#"%char],
                      mkWorld 6003 [] [] (lit "L:GI#") []))
    by (vm_compute; reflexivity).
  rewrite E in Hrun. now injection Hrun as <- _.
Defined.

(** X17.  The Teensy is not asked for the address more often than every
    5000 ms, and never again once an answer was taken: after an attempt,
    a pass of the check within the next 5000 ms of its start changes
    nothing and writes nothing, and after a successful one no pass ever
    does. *)
Theorem wifi_display_poll_is_throttled (localIP : IPAddress) (k : Sketch)
    (w : World) :
  wifiIpReceived k = false ->
  (5000 <= sub32 (millis w) (lastWifiIpCheck k))%Z ->
  exists k' w',
    checkWifiDisplayIp localIP k w = Some (k', w')
    /\ (forall v, (now w <= now v < now w + 5000)%Z ->
          checkWifiDisplayIp localIP k' v = Some (k', v))
    /\ (wifiIpReceived k' = true ->
        forall v, checkWifiDisplayIp localIP k' v = Some (k', v)).
Proof.
  intros Hrec Hdue.
  destruct (processLX200Command_forwards ":GI#" w eq_refl)
    as (r & w' & Hrun & _).
  assert (Hidle : forall k1 v,
            lastWifiIpCheck k1 = millis w ->
            (now w <= now v < now w + 5000)%Z ->
            checkWifiDisplayIp localIP k1 v = Some (k1, v)).
  { intros k1 v Hlast Hv. unfold checkWifiDisplayIp. run_unfold.
    rewrite Hlast.
    assert (Hs : (sub32 (millis v) (millis w) < 5000)%Z).
    { rewrite sub32_millis. unfold millis.
      rewrite Zminus_mod_idemp_r, Z.mod_small; lia. }
    apply Z.leb_gt in Hs. rewrite Hs, andb_false_r. reflexivity. }
  assert (Hdone : forall k1 v,
            wifiIpReceived k1 = true ->
            checkWifiDisplayIp localIP k1 v = Some (k1, v)).
  { intros k1 v Hk1. unfold checkWifiDisplayIp. run_unfold.
    now rewrite Hk1. }
  unfold checkWifiDisplayIp at 1. run_unfold.
  rewrite Hrec. apply Z.leb_le in Hdue. rewrite Hdue. cbn [negb andb].
  rewrite Hrun.
  destruct ((1 <? WString.length r)%Z && endsWith r "#");
    eexists; exists w'; (split; [reflexivity|]); split.
  - intros v Hv. now apply Hidle.
  - intros _ v. now apply Hdone.
  - intros v Hv. now apply Hidle.
  - intros H v. now apply Hdone.
Qed.

Lemma wifi_display_poll_is_throttled_witness :
  exists k' w',
    checkWifiDisplayIp (10, 0, 0, 7)%Z (mkSketch 0 false [])
      (at_time 6000 teensy_silent) = Some (k', w')
    /\ (forall v, (6000 <= now v < 6000 + 5000)%Z ->
          checkWifiDisplayIp (10, 0, 0, 7)%Z k' v = Some (k', v)).
Proof.
  destruct (wifi_display_poll_is_throttled (10, 0, 0, 7)%Z
              (mkSketch 0 false []) (at_time 6000 teensy_silent) eq_refl)
    as (k' & w' & Hchk & Hidle & _).
  { vm_compute. discriminate. }
  exists k', w'. split; [exact Hchk | exact Hidle].
Defined.

(* ================================================================== *)
(** * Further properties: one pass of the main loop *)

Lemma checkWifiDisplayIp_returns (localIP : IPAddress) (k : Sketch)
    (w : World) :
  exists k' w' q,
    checkWifiDisplayIp localIP k w = Some (k', w')
    /\ uart_tx w' = uart_tx w ++ q
    /\ sock_tx w' = sock_tx w
    /\ (q = lit "" \/ q = lit "L:GI#")
    /\ (wifiIpReceived k = true -> q = lit "" /\ k' = k).
Proof.
  unfold checkWifiDisplayIp. run_unfold.
  destruct (negb (wifiIpReceived k)
            && (5000 <=? sub32 (millis w) (lastWifiIpCheck k))%Z) eqn:Hc.
  - destruct (processLX200Command_forwards ":GI#" w eq_refl)
      as (r & w' & Hrun & Htx & Hsock & _).
    rewrite Hrun. apply andb_true_iff in Hc as [Hc _].
    apply negb_true_iff in Hc.
    destruct ((1 <? WString.length r)%Z && endsWith r "#");
      eexists; exists w', (lit "L:GI#");
      (split; [reflexivity|]); (split; [exact Htx|]);
      (split; [exact Hsock|]); (split; [now right|]); congruence.
  - exists k, w, (lit ""). rewrite app_nil_r.
    repeat split; trivial. now left.
Qed.

(** X18.  One pass of the main loop always returns.  The address query, when
    there is one, goes to the Teensy after every command of the client served
    in that pass, never in between; the client's socket gets nothing from the
    query; once the address was taken a pass writes to the Teensy what the
    client's commands put there and nothing else. *)
Theorem loop_pass_traffic (bytes : list ascii) (localIP : IPAddress)
    (resetLow : bool) (k : Sketch) (w : World) :
  exists conn w1 k' w' q,
    handleLX200Client bytes w = Some (conn, w1)
    /\ loop bytes localIP resetLow k w = Some ((k', resetLow), w')
    /\ uart_tx w'
       = uart_tx w ++ flat_map forwarded (framed bytes (mkConn false "")) ++ q
    /\ sock_tx w' = sock_tx w1
    /\ (q = lit "" \/ q = lit "L:GI#")
    /\ (wifiIpReceived k = true -> q = lit "" /\ k' = k).
Proof.
  unfold loop, handleLX200Client. run_unfold.
  destruct (serve_returns bytes (mkConn false "") w)
    as (conn & w1 & Hserve & Htx1).
  destruct (checkWifiDisplayIp_returns localIP k w1)
    as (k' & w' & q & Hchk & Htx & Hsock & Hq & Hdone).
  exists conn, w1, k', w', q. rewrite Hserve. run_unfold. rewrite Hchk.
  split; [reflexivity|]. split; [reflexivity|].
  split; [now rewrite Htx, Htx1, <- app_assoc|].
  split; [exact Hsock|]. split; [exact Hq | exact Hdone].
Qed.
